(** * Fina -> Wolt synchronizer: a shallow embedding of the sync core

    The development follows the TypeScript sources:
    - [src/types/index.ts]            the wire and state records
    - [src/core/priorityScorer.ts]    [PriorityScorer]
    - [src/utils/adaptiveBatcher.ts]  [AdaptiveBatcher]
    - [src/core/state.ts]             [StateManager]
    - [src/utils/woltRateLimiter.ts]  [WoltRateLimiter]
    - [src/core/sync.ts]              [SyncEngine]
    - [src/core/backgroundWorker.ts]  [BackgroundWorker]
    - [src/core/hybridSync.ts]        [HybridSyncOrchestrator]

    Conventions.  A JavaScript [number] that the code only compares, copies
    or adds (quantities, weights, batch sizes, readings of the clock) is a
    [Z].  The prices of the delta path ([SyncEngine], [BackgroundWorker])
    are integers too.  The priority scorer, the priority phase and the rate
    limiter are modelled over the numbers of module [Js], integers, the two
    infinities and [NaN]: their tests let an infinite price through, and
    the limiter adds and subtracts deadlines that need not be small.  A
    field that may be missing ([price?: number], or a price the ERP left
    [undefined]) is an [option]: [None] is the value for which
    [typeof x === 'number'] is false.  A JS object used as a dictionary is a [gmap string _]; a JS
    [Map], whose iteration order is the insertion order, is an association
    list kept without duplicate keys.  The order in which [Object.entries]
    enumerates the previous state is not modelled: [map_to_list] stands for
    it, and no statement below depends on it.

    Logging, metrics and the pauses between batches have no counterpart
    here.  The outside world is explicit: the responses of the ERP, the
    outcome of each call to the marketplace adapter, the files of the state
    directory, the wall clock. *)

From stdpp Require Import gmap strings list fin_maps.

Set Warnings "-register-all".

Open Scope string_scope.
Open Scope list_scope.
Open Scope Z_scope.

(** ** src/types/index.ts *)

Record FinaInventoryItem := mkInv {
  inv_id : Z;
  inv_rest : Z
}.

Record FinaProductField := mkField {
  field : string;
  value : string
}.

(** [add_fields] is [None] when the property is not an array
    ([Array.isArray(product.add_fields)] is false). *)
Record FinaProductDetail := mkDetail {
  det_id : Z;
  det_price : option Z;
  add_fields : option (list FinaProductField)
}.

Record WoltInventoryItem := mkInvUpd {
  iu_sku : string;
  iu_inventory : Z
}.

Record WoltItemUpdate := mkItemUpd {
  it_sku : string;
  it_enabled : option bool;
  it_price : option Z
}.

(** One entry of [SyncState]; [syncedToWolt] is the flag the hybrid path
    attaches to an entry with [(state[sku] as any).syncedToWolt = true]. *)
Record StateEntry := mkEntry {
  quantity : Z;
  enabled : bool;
  price : option Z;
  lastSeen : Z;
  syncedToWolt : bool
}.

#[global] Instance FinaInventoryItem_eq_dec : EqDecision FinaInventoryItem.
Proof. solve_decision. Defined.
#[global] Instance WoltInventoryItem_eq_dec : EqDecision WoltInventoryItem.
Proof. solve_decision. Defined.
#[global] Instance WoltItemUpdate_eq_dec : EqDecision WoltItemUpdate.
Proof. solve_decision. Defined.
#[global] Instance StateEntry_eq_dec : EqDecision StateEntry.
Proof. solve_decision. Defined.

(** [typeof price === 'number' && price >= 0] *)
Definition hasValidPrice (p : option Z) : bool :=
  match p with
  | Some x => bool_decide (0 <= x)
  | None => false
  end.

(** The ASCII characters [String.prototype.trim] removes. *)
Definition is_whitespace (c : Ascii.ascii) : bool :=
  let n := Ascii.nat_of_ascii c in
  bool_decide (n = 32 ∨ 9 <= n <= 13)%nat.

(** [new Map(pairs)]: a later pair with the same key replaces an earlier one. *)
Definition js_map_of {V} (l : list (Z * V)) : gmap Z V :=
  foldl (fun m kv => <[kv.1 := kv.2]> m) ∅ l.

(** ** JavaScript numbers

    The price of a product reaches the priority scorer as [JSON.parse]
    produced it, and the scorer tests it with [typeof], [<] and [>=] only.
    Those tests do not tell a finite number from an infinite one (the JSON
    literal [1e999] parses to [Infinity]), so the scorer and the priority
    phase are modelled over the whole of the number type, the finite
    numbers being the integers.  Comparisons are those of IEEE 754: every
    comparison with [NaN] is false. *)
Module Js.

Inductive number :=
| Finite (z : Z)
| PosInfinity
| NegInfinity
| NaN.

#[global] Instance number_eq_dec : EqDecision number.
Proof. solve_decision. Defined.

(** [a < b] *)
Definition lt (a b : number) : bool :=
  match a with
  | NaN => false
  | PosInfinity => false
  | NegInfinity =>
    match b with
    | Finite _ | PosInfinity => true
    | NegInfinity | NaN => false
    end
  | Finite x =>
    match b with
    | Finite y => bool_decide (x < y)
    | PosInfinity => true
    | NegInfinity | NaN => false
    end
  end.

(** [a >= b] *)
Definition ge (a b : number) : bool :=
  match a with
  | NaN => false
  | PosInfinity =>
    match b with
    | NaN => false
    | _ => true
    end
  | NegInfinity =>
    match b with
    | NegInfinity => true
    | _ => false
    end
  | Finite x =>
    match b with
    | Finite y => bool_decide (x >= y)
    | NegInfinity => true
    | PosInfinity | NaN => false
    end
  end.

(** Arithmetic.  An integer that is not representable is rounded to the
    nearest number of the binary64 format, to the one with an even
    significand when it lies half way; from [2^1024] on the result is
    infinite.  The sum, difference and product of two integers are the
    exact result, rounded. *)
Definition roundMagnitude (z : Z) : number :=
  if bool_decide (z <= 2 ^ 53) then Finite z
  else
    let e := Z.log2 z - 52 in
    let q := z `div` 2 ^ e in
    let r := z `mod` 2 ^ e in
    let half := 2 ^ (e - 1) in
    let q' := if bool_decide (half < r \/ (r = half /\ Z.odd q = true)) then q + 1 else q in
    if bool_decide (2 ^ 1024 <= q' * 2 ^ e) then PosInfinity else Finite (q' * 2 ^ e).

(** [-a] *)
Definition neg (a : number) : number :=
  match a with
  | Finite z => Finite (- z)
  | PosInfinity => NegInfinity
  | NegInfinity => PosInfinity
  | NaN => NaN
  end.

Definition round (z : Z) : number :=
  if bool_decide (z < 0) then neg (roundMagnitude (- z)) else roundMagnitude z.

(** [a + b] *)
Definition add (a b : number) : number :=
  match a, b with
  | NaN, _ | _, NaN => NaN
  | Finite x, Finite y => round (x + y)
  | PosInfinity, NegInfinity | NegInfinity, PosInfinity => NaN
  | PosInfinity, _ | _, PosInfinity => PosInfinity
  | NegInfinity, _ | _, NegInfinity => NegInfinity
  end.

(** [a - b] *)
Definition sub (a b : number) : number := add a (neg b).

(** [a * b] *)
Definition mul (a b : number) : number :=
  match a, b with
  | NaN, _ | _, NaN => NaN
  | Finite x, Finite y => round (x * y)
  | Finite 0, _ | _, Finite 0 => NaN
  | _, _ => if xorb (lt a (Finite 0)) (lt b (Finite 0)) then NegInfinity else PosInfinity
  end.

(** [a > b] and [a <= b] *)
Definition gt (a b : number) : bool := lt b a.
Definition le (a b : number) : bool := ge b a.

(** [Math.max(a, b)] and [Math.min(a, b)] *)
Definition max (a b : number) : number :=
  match a, b with
  | NaN, _ | _, NaN => NaN
  | _, _ => if lt a b then b else a
  end.
Definition min (a b : number) : number :=
  match a, b with
  | NaN, _ | _, NaN => NaN
  | _, _ => if lt b a then b else a
  end.

(** [Number.isFinite(a)] *)
Definition isFinite (a : number) : bool :=
  match a with
  | Finite _ => true
  | _ => false
  end.

(** [array.slice(start, end)] *)
Definition slice {A} (start stop : Z) (l : list A) : list A :=
  let len := Z.of_nat (length l) in
  let k := if bool_decide (start < 0) then Z.max (len + start) 0 else Z.min start len in
  let final := if bool_decide (stop < 0) then Z.max (len + stop) 0 else Z.min stop len in
  take (Z.to_nat (final - k)) (drop (Z.to_nat k) l).


End Js.

(** ** src/core/priorityScorer.ts *)
Module PriorityScorer.

(** A [FinaProductDetail] as the scorer receives it.  [pd_price] is [None]
    when [typeof detail.price] is not ['number'] (the property is missing,
    [null], a string, ...), and the number otherwise, whatever it is. *)
Record ProductDetail := mkProduct {
  pd_id : Z;
  pd_price : option Js.number;
  pd_add_fields : option (list FinaProductField)
}.

Record PriorityScoredItem := mkScored {
  ps_id : Z;
  ps_rest : Z;
  ps_price : option Js.number;
  woltSku : string;
  priority : Z;
  reason : string
}.

Record PriorityConfig := mkConfig {
  inStockWeight : Z;
  highStockWeight : Z;
  highStockThreshold : Z;
  highValueWeight : Z;
  highValueThreshold : Z;
  lowStockWeight : Z;
  lowStockThreshold : Z
}.

(** The constructor's defaults when no environment variable is set. *)
Definition defaultConfig : PriorityConfig :=
  {| inStockWeight := 100; highStockWeight := 20; highStockThreshold := 50;
     highValueWeight := 15; highValueThreshold := 50;
     lowStockWeight := 10; lowStockThreshold := 5 |}.

(** [reasons.join(', ')] *)
Definition join (l : list string) : string := String.concat ", " l.

Definition calculatePriority (cfg : PriorityConfig)
    (inventory : FinaInventoryItem) (detail : ProductDetail) : Z * string :=
  match pd_price detail with
  | None => (0, "invalid-price")
  | Some p =>
    if Js.lt p (Js.Finite 0) then (0, "invalid-price")
    else if bool_decide (inv_rest inventory > 0) then
      let s0 := (0 + inStockWeight cfg, ["in-stock"]) in
      let s1 :=
        if bool_decide (inv_rest inventory >= highStockThreshold cfg)
        then (s0.1 + highStockWeight cfg, s0.2 ++ ["high-stock"]) else s0 in
      let s2 :=
        if bool_decide (inv_rest inventory > 0)
           && bool_decide (inv_rest inventory <= lowStockThreshold cfg)
        then (s1.1 + lowStockWeight cfg, s1.2 ++ ["low-stock"]) else s1 in
      let s3 :=
        if Js.ge p (Js.Finite (highValueThreshold cfg))
        then (s2.1 + highValueWeight cfg, s2.2 ++ ["high-value"]) else s2 in
      (s3.1, join s3.2)
    else (0, "out-of-stock")
  end.






End PriorityScorer.


(** ** src/utils/adaptiveBatcher.ts *)
Module AdaptiveBatcher.

Record AdaptiveBatchConfig := mkBatch {
  currentBatchSize : Z;
  minBatchSize : Z;
  maxBatchSize : Z;
  successStreak : Z;
  failureStreak : Z;
  lastRateLimitAt : Z;
  optimalBatchSize : Z;
  totalRequests : Z;
  totalRateLimits : Z
}.

(** The environment variables the batcher reads, each already parsed by
    [parseInt(..., 10)]; [None] is an unset variable, for which the code
    falls back on the literal after [||].  The two rates are read with
    [parseFloat]; they are kept as fractions [(numerator, denominator)]. *)
Record Env := mkEnv {
  ADAPTIVE_INITIAL_BATCH_SIZE : option Z;
  ADAPTIVE_MIN_BATCH_SIZE : option Z;
  ADAPTIVE_MAX_BATCH_SIZE : option Z;
  ADAPTIVE_INCREASE_THRESHOLD : option Z;
  ADAPTIVE_INCREASE_RATE : option (Z * Z);
  ADAPTIVE_DECREASE_RATE : option (Z * Z)
}.

(** No override is set. *)
Definition noEnv : Env := mkEnv None None None None None None.

Definition increaseThreshold (env : Env) : Z := default 10 (ADAPTIVE_INCREASE_THRESHOLD env).
Definition increaseRate (env : Env) : Z * Z := default (11, 10) (ADAPTIVE_INCREASE_RATE env).
Definition decreaseRate (env : Env) : Z * Z := default (1, 2) (ADAPTIVE_DECREASE_RATE env).

(** [Math.floor(size * rate)] *)
Definition scale (size : Z) (rate : Z * Z) : Z := (size * rate.1) `div` rate.2.

(** The batcher's [config] map: venue id to its batch state. *)
Definition initConfig (env : Env) (config : gmap string AdaptiveBatchConfig)
    (venueId : string) : gmap string AdaptiveBatchConfig * AdaptiveBatchConfig :=
  let initialBatchSize := default 1000 (ADAPTIVE_INITIAL_BATCH_SIZE env) in
  let minBatchSize := default 10 (ADAPTIVE_MIN_BATCH_SIZE env) in
  let maxBatchSize := default 5000 (ADAPTIVE_MAX_BATCH_SIZE env) in
  let c := {| currentBatchSize := initialBatchSize;
              minBatchSize := minBatchSize;
              maxBatchSize := maxBatchSize;
              successStreak := 0;
              failureStreak := 0;
              lastRateLimitAt := 0;
              optimalBatchSize := initialBatchSize;
              totalRequests := 0;
              totalRateLimits := 0 |} in
  (<[venueId := c]> config, c).

Definition getConfig (env : Env) (config : gmap string AdaptiveBatchConfig)
    (venueId : string) : gmap string AdaptiveBatchConfig * AdaptiveBatchConfig :=
  match config !! venueId with
  | Some c => (config, c)
  | None => initConfig env config venueId
  end.

Definition getCurrentBatchSize (env : Env) (config : gmap string AdaptiveBatchConfig)
    (venueId : string) : gmap string AdaptiveBatchConfig * Z :=
  let r := getConfig env config venueId in
  (r.1, currentBatchSize r.2).

Definition onSuccess (env : Env) (config : gmap string AdaptiveBatchConfig)
    (venueId : string) : gmap string AdaptiveBatchConfig * Z :=
  let r := getConfig env config venueId in
  let c := r.2 in
  let streak := successStreak c + 1 in
  let grow := bool_decide (streak >= increaseThreshold env) in
  let size :=
    if grow then Z.min (scale (currentBatchSize c) (increaseRate env)) (maxBatchSize c)
    else currentBatchSize c in
  let streak' := if grow then 0 else streak in
  let c' := {| currentBatchSize := size;
               minBatchSize := minBatchSize c;
               maxBatchSize := maxBatchSize c;
               successStreak := streak';
               failureStreak := 0;
               lastRateLimitAt := lastRateLimitAt c;
               optimalBatchSize :=
                 if bool_decide (streak' > 5) then size else optimalBatchSize c;
               totalRequests := totalRequests c + 1;
               totalRateLimits := totalRateLimits c |} in
  (<[venueId := c']> r.1, size).

Definition onRateLimit (env : Env) (now : Z) (config : gmap string AdaptiveBatchConfig)
    (venueId : string) : gmap string AdaptiveBatchConfig * Z :=
  let r := getConfig env config venueId in
  let c := r.2 in
  let size := Z.max (scale (currentBatchSize c) (decreaseRate env)) (minBatchSize c) in
  let c' := {| currentBatchSize := size;
               minBatchSize := minBatchSize c;
               maxBatchSize := maxBatchSize c;
               successStreak := 0;
               failureStreak := failureStreak c + 1;
               lastRateLimitAt := now;
               optimalBatchSize := optimalBatchSize c;
               totalRequests := totalRequests c + 1;
               totalRateLimits := totalRateLimits c + 1 |} in
  (<[venueId := c']> r.1, size).

End AdaptiveBatcher.

(** ** src/core/state.ts *)
Module StateManager.

(** What [fs.readJson] hands back: a parsed JSON document. *)
Inductive json :=
| JNull
| JBool (b : bool)
| JNum (z : Z)
| JStr (s : string)
| JArr (l : list json)
| JObj (fields : list (string * json)).

(** A file that exists either parses ([Doc]) or makes [fs.readJson] throw. *)
Inductive content :=
| Garbage
| Doc (j : json).

Inductive path :=
| StatePath (storeId : Z)
| BackupPath (storeId : Z).

#[global] Instance path_eq_dec : EqDecision path.
Proof. solve_decision. Defined.

(** The state directory: [None] is a path that does not exist. *)
Definition disk := path -> option content.

Inductive access :=
| PathExists (p : path)
| ReadJson (p : path).

#[global] Instance access_eq_dec : EqDecision access.
Proof. solve_decision. Defined.

(** Computations that touch the disk: they record each access and either
    return or throw. *)
Inductive result (A : Type) :=
| Ok (a : A)
| Throw.
Arguments Ok {A} a.
Arguments Throw {A}.

Definition io (A : Type) := disk -> list access -> result A * list access.

Definition ret {A} (a : A) : io A := fun _ log => (Ok a, log).
Definition bind {A B} (m : io A) (k : A -> io B) : io B :=
  fun d log =>
    match m d log with
    | (Ok a, log') => k a d log'
    | (Throw, log') => (Throw, log')
    end.
(** [try { m } catch { h }] *)
Definition try_catch {A} (m : io A) (h : io A) : io A :=
  fun d log =>
    match m d log with
    | (Ok a, log') => (Ok a, log')
    | (Throw, log') => h d log'
    end.

Notation "x <~ m ;; k" := (bind m (fun x => k))
  (at level 100, m at next level, right associativity).

(** [fs.pathExists] resolves to a boolean and never rejects. *)
Definition pathExists (p : path) : io bool :=
  fun d log => (Ok (bool_decide (is_Some (d p))), log ++ [PathExists p]).

Definition readJson (p : path) : io json :=
  fun d log =>
    (match d p with
     | Some (Doc j) => Ok j
     | _ => Throw
     end, log ++ [ReadJson p]).

Definition obj_get (k : string) (fields : list (string * json)) : option json :=
  snd <$> List.find (fun kv => bool_decide (kv.1 = k)) fields.

(** [sku.trim() === ''] *)
Definition trim_is_empty (s : string) : bool :=
  forallb is_whitespace (String.list_ascii_of_string s).

(** [Number.isFinite(v)] on a property that may be missing. *)
Definition isFinite (v : option json) : bool :=
  match v with
  | Some (JNum _) => true
  | _ => false
  end.

Definition validEntry (kv : string * json) : bool :=
  if trim_is_empty kv.1 then false
  else match kv.2 with
  | JObj e =>
    if negb (isFinite (obj_get "quantity" e))
       || negb (match obj_get "enabled" e with Some (JBool _) => true | _ => false end)
    then false
    else if bool_decide (obj_get "price" e ≠ None) && negb (isFinite (obj_get "price" e))
    then false
    else if bool_decide (obj_get "lastSeen" e ≠ None) && negb (isFinite (obj_get "lastSeen" e))
    then false
    else true
  | _ => false
  end.

Definition isValidState (data : json) : bool :=
  match data with
  | JObj fields => forallb validEntry fields
  | _ => false
  end.

(** [readStateFile]: [None] is the [null] it returns after logging. *)
Definition readStateFile (filePath : path) : io (option json) :=
  try_catch
    (data <~ readJson filePath ;;
     if negb (isValidState data) then ret None else ret (Some data))
    (ret None).

Definition emptyState : json := JObj [].

Definition loadState (storeId : Z) : io json :=
  let filePath := StatePath storeId in
  primaryExists <~ pathExists filePath ;;
  if primaryExists then
    primary <~ readStateFile filePath ;;
    match primary with
    | Some st => ret st
    | None =>
      let backupPath := BackupPath storeId in
      backupExists <~ pathExists backupPath ;;
      if backupExists then
        backup <~ readStateFile backupPath ;;
        match backup with
        | Some st => ret st
        | None => ret emptyState
        end
      else ret emptyState
    end
  else ret emptyState.

(** [await loadState(storeId)] on a given state directory. *)
Definition runLoad (d : disk) (storeId : Z) : result json * list access :=
  loadState storeId d [].

(** A file [fs.readJson] parses and [isValidState] accepts. *)
Definition validFile (f : option content) : option json :=
  match f with
  | Some (Doc j) => if isValidState j then Some j else None
  | _ => None
  end.

(** Two state directories for store 1: a primary that does not parse next to
    a valid backup, and a primary that fails validation next to a backup that
    does not parse. *)
Definition validDoc : json :=
  JObj [("WOLT-003", JObj [("quantity", JNum 5); ("enabled", JBool true)])].

Definition corruptWithBackup : disk := fun p =>
  match p with
  | StatePath 1 => Some Garbage
  | BackupPath 1 => Some (Doc validDoc)
  | _ => None
  end.

Definition bothCorrupt : disk := fun p =>
  match p with
  | StatePath 1 => Some (Doc (JObj [("WOLT-003", JObj [("quantity", JStr "5")])]))
  | BackupPath 1 => Some Garbage
  | _ => None
  end.

End StateManager.

(** ** src/utils/woltRateLimiter.ts

    The limiter computes its deadlines with JavaScript numbers, so its
    fields are numbers of [Js].  An integer it is given (an option, a
    reading of the clock, a number read from the state file, a numeric
    header) stands for a number the binary64 format represents.  A reading
    of the clock, [Date.now()], is a time value, an integer below [2^53];
    the wall clock is taken not to run backwards. *)
Module WoltRateLimiter.

(** [key] is [None] for a limiter that does not persist its state. *)
Record WoltRateLimiterOptions := mkOptions {
  minIntervalMs : Z;
  retryAfterBufferMs : Z;
  retryAfterJitterMs : Z;
  learnMinIntervalFromRetryAfter : bool;
  enforceLearnedMinIntervalAfterSuccess : bool;
  maxLearnedMinIntervalMs : Z;
  key : option string
}.

(** The entry of [state/rate-limits.json] stored under the limiter's key.
    A field is [None] when the document holds [null] for it, which is what
    [JSON.stringify] writes for a number that is not finite. *)
Record RateLimiterState := mkSaved {
  saved_nextAllowedAtMs : option Z;
  saved_learnedMinIntervalMs : option Z
}.

(** The limiter's fields together with what it can observe: the wall clock
    ([Date.now()]) and its entry in the state file ([None] when the file or
    the entry does not exist, or the file cannot be read). *)
Record Limiter := mkLimiter {
  nextAllowedAtMs : Js.number;
  lastRequestAtMs : Z;
  learnedMinIntervalMs : Js.number;
  stateFile : option RateLimiterState;
  clock : Z
}.

(** A [Retry-After] header as [axios] exposes it ([unknown] in the source);
    [HNum] is a finite number. *)
Inductive headerValue :=
| HNum (n : Z)
| HStr (s : string)
| HOther.

(** What becomes of the limiter's entry when [saveState] runs: the document
    is written; the attempt fails and leaves the file as it was (the source
    ignores the error); the attempt fails and leaves a file that cannot be
    read. *)
Inductive writeResult :=
| Written
| Failed
| Torn.

Fixpoint dropSpaces (cs : list Ascii.ascii) : list Ascii.ascii :=
  match cs with
  | c :: cs' => if is_whitespace c then dropSpaces cs' else cs
  | [] => []
  end.

Definition trim (s : string) : string :=
  let drop := dropSpaces in
  String.string_of_list_ascii
    (rev (drop (rev (drop (String.list_ascii_of_string s))))).

Definition digit (c : Ascii.ascii) : option Z :=
  let n := Ascii.nat_of_ascii c in
  if bool_decide (48 <= n <= 57)%nat then Some (Z.of_nat n - 48) else None.

(** [/^\d+$/.test(s)], and the integer the digits denote. *)
Definition parseDigits (s : string) : option Z :=
  match String.list_ascii_of_string s with
  | [] => None
  | cs => foldl (fun acc c =>
            match acc, digit c with
            | Some a, Some d => Some (a * 10 + d)
            | _, _ => None
            end) (Some 0) cs
  end.

(** The largest delay of a Node.js timer, [2^31 - 1] ms. *)
Definition TIMEOUT_MAX : Z := 2147483647.

(** [setTimeout(resolve, ms)]: a delay that is not between 1 and
    [TIMEOUT_MAX] is set to 1. *)
Definition timerDelay (ms : Js.number) : Z :=
  match ms with
  | Js.Finite z => if bool_decide (1 <= z <= TIMEOUT_MAX) then z else 1
  | _ => 1
  end.

(** [JSON.stringify] of a number, read back. *)
Definition toJson (n : Js.number) : option Z :=
  match n with
  | Js.Finite z => Some z
  | _ => None
  end.

Section Limiter.

(** [Date.parse], in milliseconds; [None] when the result is not finite. *)
Variable dateParse : string -> option Z.
Variable options : WoltRateLimiterOptions.

Definition parseRetryAfterMs (v : headerValue) (nowMs : Z) : option Js.number :=
  match v with
  | HNum n =>
    if bool_decide (n >= 0) then Some (Js.mul (Js.Finite n) (Js.Finite 1000)) else None
  | HOther => None
  | HStr s =>
    let trimmed := trim s in
    if bool_decide (trimmed = "") then None
    else match parseDigits trimmed with
    | Some digits =>
      let seconds := Js.round digits in
      Some (Js.max (Js.Finite 0) (Js.mul seconds (Js.Finite 1000)))
    | None =>
      match dateParse trimmed with
      | Some asDate => Some (Js.max (Js.Finite 0) (Js.sub (Js.Finite asDate) (Js.Finite nowMs)))
      | None => None
      end
    end
  end.

(** [this.options.key] as a condition: a key that is missing or empty is
    falsy, and the limiter does not touch the state file. *)
Definition persists : bool :=
  match key options with
  | Some k => bool_decide (k ≠ "")
  | None => false
  end.

(** [myState.nextAllowedAtMs || 0]: [null] and [0] give [0]. *)
Definition loadState (l : Limiter) : Limiter :=
  match stateFile l with
  | Some myState =>
    {| nextAllowedAtMs := Js.Finite (default 0 (saved_nextAllowedAtMs myState));
       lastRequestAtMs := lastRequestAtMs l;
       learnedMinIntervalMs := Js.Finite (default 0 (saved_learnedMinIntervalMs myState));
       stateFile := stateFile l;
       clock := clock l |}
  | None => l
  end.

Definition saveState (w : writeResult) (l : Limiter) : Limiter :=
  if negb persists then l
  else
    {| nextAllowedAtMs := nextAllowedAtMs l;
       lastRequestAtMs := lastRequestAtMs l;
       learnedMinIntervalMs := learnedMinIntervalMs l;
       stateFile :=
         match w with
         | Written =>
           Some {| saved_nextAllowedAtMs := toJson (nextAllowedAtMs l);
                   saved_learnedMinIntervalMs := toJson (learnedMinIntervalMs l) |}
         | Failed => stateFile l
         | Torn => None
         end;
       clock := clock l |}.

(** Time passing: the clock never runs backwards. *)
Definition elapse (d : nat) (l : Limiter) : Limiter :=
  {| nextAllowedAtMs := nextAllowedAtMs l;
     lastRequestAtMs := lastRequestAtMs l;
     learnedMinIntervalMs := learnedMinIntervalMs l;
     stateFile := stateFile l;
     clock := clock l + Z.of_nat d |}.

(** The first lines of [waitForTurn], entered [d] ms after the previous
    operation: the state is reloaded and the gate computed. *)
Definition reloaded (d : nat) (l0 : Limiter) : Limiter :=
  let l1 := elapse d l0 in
  if persists then loadState l1 else l1.

Definition gateAt (l : Limiter) : Js.number :=
  let minIntervalGate :=
    if bool_decide (lastRequestAtMs l > 0)
    then Js.add (Js.Finite (lastRequestAtMs l))
                (Js.max (Js.Finite (minIntervalMs options)) (learnedMinIntervalMs l))
    else Js.Finite 0 in
  Js.max (nextAllowedAtMs l) minIntervalGate.

(** [waitMs], when [waitForTurn] sleeps. *)
Definition waitMs (d : nat) (l0 : Limiter) : option Js.number :=
  let l := reloaded d l0 in
  if Js.gt (gateAt l) (Js.Finite (clock l))
  then Some (Js.sub (gateAt l) (Js.Finite (clock l))) else None.

(** [waitForTurn]; the timer of [sleep] does not fire before its delay has
    passed: it fires [late] ms after that. *)
Definition waitForTurn (d late : nat) (l0 : Limiter) : Limiter :=
  let l := reloaded d l0 in
  let now := clock l in
  let woken :=
    match waitMs d l0 with
    | Some ms => now + timerDelay ms
    | None => now
    end in
  let t := woken + Z.of_nat late in
  {| nextAllowedAtMs := nextAllowedAtMs l;
     lastRequestAtMs := t;
     learnedMinIntervalMs := learnedMinIntervalMs l;
     stateFile := stateFile l;
     clock := t |}.

(** [onRateLimited]; [rnd] stands for the draw of [Math.random()]:
    [Math.floor(Math.random() * jitterMs)] is one of [0 .. jitterMs - 1];
    [w] is the fate of the write of [saveState]. *)
Definition onRateLimited (d : nat) (v : headerValue) (rnd : nat) (w : writeResult)
    (l0 : Limiter) : Limiter :=
  let l := elapse d l0 in
  let now := clock l in
  let retryAfterMs := parseRetryAfterMs v now in
  let positive :=
    match retryAfterMs with
    | Some ms => Js.gt ms (Js.Finite 0)
    | None => false
    end in
  let ms := default (Js.Finite 0) retryAfterMs in
  let learned :=
    if learnMinIntervalFromRetryAfter options && positive
    then Js.min (Js.max (learnedMinIntervalMs l) ms)
                (Js.Finite (maxLearnedMinIntervalMs options))
    else learnedMinIntervalMs l in
  if positive then
    let jitter :=
      if bool_decide (retryAfterJitterMs options > 0)
      then Z.of_nat rnd `mod` retryAfterJitterMs options else 0 in
    let nextAllowed :=
      Js.add (Js.add (Js.add (Js.Finite now) ms) (Js.Finite (retryAfterBufferMs options)))
             (Js.Finite jitter) in
    saveState w
      {| nextAllowedAtMs := Js.max (nextAllowedAtMs l) nextAllowed;
         lastRequestAtMs := lastRequestAtMs l;
         learnedMinIntervalMs := learned;
         stateFile := stateFile l;
         clock := clock l |}
  else
    {| nextAllowedAtMs := nextAllowedAtMs l;
       lastRequestAtMs := lastRequestAtMs l;
       learnedMinIntervalMs := learned;
       stateFile := stateFile l;
       clock := clock l |}.

Definition onSuccess (d : nat) (l0 : Limiter) : Limiter :=
  let l := elapse d l0 in
  if negb (enforceLearnedMinIntervalAfterSuccess options) then l
  else
    let now := clock l in
    let postSuccessDelay :=
      Js.max (Js.Finite (minIntervalMs options)) (learnedMinIntervalMs l) in
    if Js.le postSuccessDelay (Js.Finite 0) then l
    else
      {| nextAllowedAtMs :=
           Js.max (nextAllowedAtMs l) (Js.add (Js.Finite now) postSuccessDelay);
         lastRequestAtMs := lastRequestAtMs l;
         learnedMinIntervalMs := learnedMinIntervalMs l;
         stateFile := stateFile l;
         clock := clock l |}.

(** Somebody else, another limiter with the same key or an operator,
    leaves [entry] in the state file. *)
Definition rewriteEntry (entry : option RateLimiterState) (l : Limiter) : Limiter :=
  {| nextAllowedAtMs := nextAllowedAtMs l;
     lastRequestAtMs := lastRequestAtMs l;
     learnedMinIntervalMs := learnedMinIntervalMs l;
     stateFile := entry;
     clock := clock l |}.

(** What happens to one limiter, in order: the calls of its methods, made
    one after the other as the adapter's queue of concurrency 1 makes
    them, and the changes others make to its entry of the state file. *)
Inductive call :=
| WaitForTurn (d late : nat)
| OnRateLimited (d : nat) (v : headerValue) (rnd : nat) (w : writeResult)
| OnSuccess (d : nat)
| EntryRewritten (entry : option RateLimiterState).

Definition step (c : call) (l : Limiter) : Limiter :=
  match c with
  | WaitForTurn d late => waitForTurn d late l
  | OnRateLimited d v rnd w => onRateLimited d v rnd w l
  | OnSuccess d => onSuccess d l
  | EntryRewritten entry => rewriteEntry entry l
  end.

(** The instants at which [waitForTurn] lets a request through. *)
Fixpoint released (cs : list call) (l : Limiter) : list Z :=
  match cs with
  | [] => []
  | c :: cs' =>
    let l' := step c l in
    match c with
    | WaitForTurn _ _ => clock l' :: released cs' l'
    | _ => released cs' l'
    end
  end.

(** The delays [waitForTurn] asks [sleep] for. *)
Fixpoint waits (cs : list call) (l : Limiter) : list Js.number :=
  match cs with
  | [] => []
  | c :: cs' =>
    match c with
    | WaitForTurn d _ =>
      match waitMs d l with
      | Some ms => ms :: waits cs' (step c l)
      | None => waits cs' (step c l)
      end
    | _ => waits cs' (step c l)
    end
  end.

(** The deadlines [onRateLimited] leaves in [nextAllowedAtMs]. *)
Fixpoint deadlines (cs : list call) (l : Limiter) : list Js.number :=
  match cs with
  | [] => []
  | c :: cs' =>
    match c with
    | OnRateLimited _ _ _ _ => nextAllowedAtMs (step c l) :: deadlines cs' (step c l)
    | _ => deadlines cs' (step c l)
    end
  end.

End Limiter.

(** [WoltRateLimiter.fromEnv] with no variable set. *)
Definition defaultOptions (k : option string) : WoltRateLimiterOptions :=
  {| minIntervalMs := 1100; retryAfterBufferMs := 1000; retryAfterJitterMs := 250;
     learnMinIntervalFromRetryAfter := true;
     enforceLearnedMinIntervalAfterSuccess := true;
     maxLearnedMinIntervalMs := 60 * 60 * 1000;
     key := k |}.

End WoltRateLimiter.


(** ** src/adapters/fina.ts *)
Module FinaAdapter.

(** [mapToWoltSku]: the SKU is the value of the first [usr_column_514]
    field, when that value is not empty. *)
Definition mapToWoltSku (details : list FinaProductDetail) : gmap Z string :=
  foldl (fun m product =>
    match add_fields product with
    | Some fs =>
      match List.find (fun f => bool_decide (field f = "usr_column_514")) fs with
      | Some woltField =>
        if bool_decide (value woltField ≠ "")
        then <[det_id product := value woltField]> m else m
      | None => m
      end
    | None => m
    end) ∅ details.

(** What the two reads of a run return; [None] is a rejected promise. *)
Record responses := mkFina {
  getInventory : option (list FinaInventoryItem);
  getProductDetails : list Z -> option (list FinaProductDetail)
}.

End FinaAdapter.

(** ** src/core/sync.ts *)
Module SyncEngine.
Import FinaAdapter.

Record SyncOptions := mkOptions {
  dryRun : bool;
  limit : option Z;
  forceFullSync : bool;
  bootstrapState : bool
}.

(** [limit] used as a condition: [undefined] and [0] are falsy. *)
Definition truthy (limit : option Z) : bool :=
  match limit with
  | Some n => bool_decide (n ≠ 0)
  | None => false
  end.

(** The batch sizes [resolveBatchConfig] yields; [readPositiveInt] and the
    constructor only let positive sizes through. *)
Record BatchConfig := mkBatchConfig {
  batchSize : positive;
  firstSyncBatchSize : positive
}.

(** No [WOLT_*BATCH_SIZE] variable is set. *)
Definition defaultBatchConfig : BatchConfig :=
  {| batchSize := 50; firstSyncBatchSize := 1 |}.

Definition resolveBatchConfig (cfg : BatchConfig) (isFirstSync : bool) : positive :=
  if isFirstSync then firstSyncBatchSize cfg else batchSize cfg.

(** An entry of the [woltData] map. *)
Record SkuData := mkSku {
  sd_quantity : Z;
  sd_price : option Z;
  sd_enabled : bool
}.

Definition stockMapOf (inventory : list FinaInventoryItem) : gmap Z Z :=
  js_map_of (map (fun i => (inv_id i, inv_rest i)) inventory).

(** The body of the loop over [details]: [woltData.has] / [set] / [get]. *)
Fixpoint upsert (sku : string) (q : Z) (p : option Z) (woltData : list (string * SkuData))
    : list (string * SkuData) :=
  match woltData with
  | [] => [(sku, {| sd_quantity := q; sd_price := p; sd_enabled := bool_decide (q > 0) |})]
  | (k, existing) :: rest =>
    if bool_decide (k = sku) then
      let q' := sd_quantity existing + q in
      (k, {| sd_quantity := q'; sd_price := p; sd_enabled := bool_decide (q' > 0) |}) :: rest
    else (k, existing) :: upsert sku q p rest
  end.

Definition buildWoltData (inventory : list FinaInventoryItem)
    (details : list FinaProductDetail) : list (string * SkuData) :=
  let stockMap := stockMapOf inventory in
  let finaIdToWoltSku := mapToWoltSku details in
  foldl (fun woltData product =>
    match finaIdToWoltSku !! det_id product with
    | None => woltData
    | Some woltSku =>
      let quantity := default 0 (stockMap !! det_id product) in
      upsert woltSku quantity (det_price product) woltData
    end) [] details.

(** The variables the two detection loops update. *)
Record changes := mkChanges {
  inventoryUpdates : list WoltInventoryItem;
  itemUpdates : list WoltItemUpdate;
  newState : gmap string StateEntry;
  newItemCount : nat;
  missingItemCount : nat
}.

Definition entryOf (data : SkuData) (now : Z) : StateEntry :=
  {| quantity := sd_quantity data; enabled := sd_enabled data;
     price := sd_price data; lastSeen := now; syncedToWolt := false |}.

Definition pushBoth (sku : string) (data : SkuData) (c : changes) (ns : gmap string StateEntry)
    (count : nat) : changes :=
  {| inventoryUpdates := inventoryUpdates c ++ [mkInvUpd sku (sd_quantity data)];
     itemUpdates := itemUpdates c ++ [mkItemUpd sku (Some (sd_enabled data)) (sd_price data)];
     newState := ns; newItemCount := count; missingItemCount := missingItemCount c |}.

(** One iteration of [for (const [sku, data] of woltData.entries())]. *)
Definition detectStep (forceFullSync bootstrapState : bool)
    (previousState : gmap string StateEntry) (now : Z)
    (c : changes) (e : string * SkuData) : changes :=
  let sku := e.1 in
  let data := e.2 in
  let ns := <[sku := entryOf data now]> (newState c) in
  let prev := previousState !! sku in
  if forceFullSync && negb bootstrapState then
    pushBoth sku data c ns
      (if prev is None then S (newItemCount c) else newItemCount c)
  else
    match prev with
    | None =>
      if negb bootstrapState then pushBoth sku data c ns (S (newItemCount c))
      else {| inventoryUpdates := inventoryUpdates c; itemUpdates := itemUpdates c;
              newState := ns; newItemCount := S (newItemCount c);
              missingItemCount := missingItemCount c |}
    | Some prev =>
      {| inventoryUpdates :=
           if bool_decide (quantity prev ≠ sd_quantity data)
           then inventoryUpdates c ++ [mkInvUpd sku (sd_quantity data)]
           else inventoryUpdates c;
         itemUpdates :=
           if bool_decide (enabled prev ≠ sd_enabled data)
              || bool_decide (price prev ≠ sd_price data)
           then itemUpdates c ++ [mkItemUpd sku (Some (sd_enabled data)) (sd_price data)]
           else itemUpdates c;
         newState := ns; newItemCount := newItemCount c;
         missingItemCount := missingItemCount c |}
    end.

Definition has (woltData : list (string * SkuData)) (sku : string) : bool :=
  bool_decide (sku ∈ woltData.*1).

(** One iteration of [for (const [sku, prev] of Object.entries(previousState))]. *)
Definition missingStep (bootstrapState : bool) (woltData : list (string * SkuData))
    (now : Z) (c : changes) (e : string * StateEntry) : changes :=
  let sku := e.1 in
  let prev := e.2 in
  if negb (has woltData sku) then
    {| inventoryUpdates :=
         if negb bootstrapState then inventoryUpdates c ++ [mkInvUpd sku 0]
         else inventoryUpdates c;
       itemUpdates :=
         if negb bootstrapState then itemUpdates c ++ [mkItemUpd sku (Some false) None]
         else itemUpdates c;
       newState := <[sku := {| quantity := 0; enabled := false; price := price prev;
                               lastSeen := now; syncedToWolt := false |}]> (newState c);
       newItemCount := newItemCount c;
       missingItemCount := S (missingItemCount c) |}
  else c.

(** Steps 4 and 5 of [runWithOptions]: the diff against the previous state. *)
Definition detectChanges (forceFullSync bootstrapState : bool)
    (previousState : gmap string StateEntry) (now : Z)
    (woltData : list (string * SkuData)) : changes :=
  let c := foldl (detectStep forceFullSync bootstrapState previousState now)
                 (mkChanges [] [] ∅ 0 0) woltData in
  foldl (missingStep bootstrapState woltData now) c (map_to_list previousState).

(** [arr.length > limit ? arr.slice(0, limit) : arr], under [limit && limit > 0]. *)
Definition applyLimit {A} (limit : option Z) (arr : list A) : list A :=
  match limit with
  | Some n =>
    if bool_decide (n ≠ 0) && bool_decide (n > 0) then
      if bool_decide (Z.of_nat (length arr) > n) then take (Z.to_nat n) arr else arr
    else arr
  | None => arr
  end.

(** [for (let i = 0; i < arr.length; i += size) arr.slice(i, i + size)];
    [fuel] bounds the number of iterations. *)
Fixpoint batchesFrom {A} (fuel size : nat) (arr : list A) : list (list A) :=
  match fuel with
  | O => []
  | S fuel' =>
    match arr with
    | [] => []
    | _ => take size arr :: batchesFrom fuel' size (drop size arr)
    end
  end.

Definition batches {A} (size : positive) (arr : list A) : list (list A) :=
  batchesFrom (length arr) (Pos.to_nat size) arr.

(** What a run does to the outside world, in order: a PATCH to the items
    endpoint, a PATCH to the inventory endpoint (each with the payload and
    whether the adapter resolved or threw), a [stateManager.saveState]. *)
Inductive event :=
| UpdateItems (batch : list WoltItemUpdate) (ok : bool)
| UpdateInventory (batch : list WoltInventoryItem) (ok : bool)
| SaveState (state : gmap string StateEntry).

(** The mutable part of the push phases: the events so far, the in-memory
    [previousState] object, and the number of adapter calls made. *)
Record progress := mkProgress {
  trace : list event;
  previousState : gmap string StateEntry;
  calls : nat
}.

Definition updateSyncedState (options : SyncOptions) (newState : gmap string StateEntry)
    (syncedSkus : list string) (p : progress) : progress :=
  if dryRun options || truthy (limit options) then p
  else
    let prev := foldl (fun m sku =>
                  match newState !! sku with
                  | Some current => <[sku := current]> m
                  | None => m
                  end) (previousState p) syncedSkus in
    {| trace := trace p ++ [SaveState prev]; previousState := prev; calls := calls p |}.

(** An adapter call has been made: [e] is the request with its outcome. *)
Definition called (e : event) (p : progress) : progress :=
  {| trace := trace p ++ [e]; previousState := previousState p; calls := S (calls p) |}.

(** One push phase over its batches.  [wolt n] tells whether the [n]-th
    adapter call of the run resolves; a call that throws ends the run. *)
Fixpoint pushPhase {A} (mk : list A -> bool -> event) (skuOf : A -> string)
    (options : SyncOptions) (newState : gmap string StateEntry) (wolt : nat -> bool)
    (bs : list (list A)) (p : progress) : progress * bool :=
  match bs with
  | [] => (p, true)
  | batch :: rest =>
    if wolt (calls p) then
      let p1 := called (mk batch true) p in
      let p2 := updateSyncedState options newState (map skuOf batch) p1 in
      pushPhase mk skuOf options newState wolt rest p2
    else (called (mk batch false) p, false)
  end.

Inductive outcome :=
| Skipped       (* store disabled *)
| Aborted       (* empty inventory: the run returns after logging *)
| Completed
| Thrown.       (* the promise is rejected *)

(** Step 6 and 7: the two phases, then the final save. *)
Definition execute (cfg : BatchConfig) (options : SyncOptions) (useFirstSyncBatch : bool)
    (loaded : gmap string StateEntry) (c : changes) (wolt : nat -> bool)
    : outcome * list event :=
  let itemUpdates := applyLimit (limit options) (itemUpdates c) in
  let inventoryUpdates := applyLimit (limit options) (inventoryUpdates c) in
  let effectiveBatchSize := resolveBatchConfig cfg useFirstSyncBatch in
  let p0 := mkProgress [] loaded 0 in
  let r1 :=
    if dryRun options then (p0, true)
    else pushPhase UpdateItems it_sku options (newState c) wolt
           (batches effectiveBatchSize itemUpdates) p0 in
  if negb r1.2 then (Thrown, trace r1.1)
  else
    let r2 :=
      if dryRun options then (r1.1, true)
      else pushPhase UpdateInventory iu_sku options (newState c) wolt
             (batches effectiveBatchSize inventoryUpdates) r1.1 in
    if negb r2.2 then (Thrown, trace r2.1)
    else
      (Completed,
       if negb (dryRun options) && negb (truthy (limit options))
       then trace r2.1 ++ [SaveState (newState c)]
       else trace r2.1).

(** [runWithOptions]: [loaded] is what [stateManager.loadState] returned,
    [now] the reading of [Date.now()] taken before the diff. *)
Definition runWithOptions (cfg : BatchConfig) (storeEnabled : bool) (options : SyncOptions)
    (loaded : gmap string StateEntry) (fina : responses) (wolt : nat -> bool) (now : Z)
    : outcome * list event :=
  if negb storeEnabled then (Skipped, [])
  else
    let isFirstSync := bool_decide (size loaded = 0%nat) in
    let forceFullSync :=
      if isFirstSync && negb (forceFullSync options) && negb (bootstrapState options)
      then true else forceFullSync options in
    match getInventory fina with
    | None => (Thrown, [])
    | Some inventory =>
      if bool_decide (length inventory = 0%nat) then (Aborted, [])
      else
        let productIds := map inv_id inventory in
        match getProductDetails fina productIds with
        | None => (Thrown, [])
        | Some details =>
          if bool_decide (length details < length productIds)%nat then (Thrown, [])
          else
            let woltData := buildWoltData inventory details in
            let c := detectChanges forceFullSync (bootstrapState options) loaded now woltData in
            if bootstrapState options then
              (Completed, if negb (dryRun options) then [SaveState (newState c)] else [])
            else
              execute cfg options (isFirstSync || forceFullSync) loaded c wolt
        end
    end.

(** The state file after the events of a run: the last save wins. *)
Definition persisted (before : gmap string StateEntry) (tr : list event)
    : gmap string StateEntry :=
  foldl (fun st e => match e with SaveState s => s | _ => st end) before tr.

(** The SKUs of the batches the marketplace acknowledged. *)
Definition confirmedSkus (tr : list event) : list string :=
  flat_map (fun e =>
    match e with
    | UpdateItems batch true => map it_sku batch
    | UpdateInventory batch true => map iu_sku batch
    | _ => []
    end) tr.

(** The payloads sent to the two endpoints, in order. *)
Definition sentItems (tr : list event) : list WoltItemUpdate :=
  flat_map (fun e => match e with UpdateItems batch _ => batch | _ => [] end) tr.
Definition sentInventory (tr : list event) : list WoltInventoryItem :=
  flat_map (fun e => match e with UpdateInventory batch _ => batch | _ => [] end) tr.
Definition saves (tr : list event) : list (gmap string StateEntry) :=
  flat_map (fun e => match e with SaveState s => [s] | _ => [] end) tr.

End SyncEngine.

(** ** src/core/backgroundWorker.ts *)
Module BackgroundWorker.
Import FinaAdapter.

Record BackgroundWorkerConfig := mkConfig {
  dailyLimit : nat;
  skipIfInState : bool
}.

(** [BACKGROUND_DAILY_LIMIT] unset. *)
Definition defaultConfig : BackgroundWorkerConfig :=
  {| dailyLimit := 500; skipIfInState := true |}.

(** The first loop of [syncNextBatch]: products that have a SKU and whose
    state entry is not flagged [syncedToWolt]. *)
Definition unsyncedItems (config : BackgroundWorkerConfig) (state : gmap string StateEntry)
    (details : list FinaProductDetail) : list (Z * string) :=
  let finaIdToWoltSku := mapToWoltSku details in
  foldl (fun acc product =>
    match finaIdToWoltSku !! det_id product with
    | None => acc
    | Some woltSku =>
      if skipIfInState config
         && match state !! woltSku with Some e => syncedToWolt e | None => false end
      then acc
      else acc ++ [(det_id product, woltSku)]
    end) [] details.

(** The loop that builds the two payloads from [batchToSync]. *)
Definition buildPayloads (inventory : list FinaInventoryItem)
    (details : list FinaProductDetail) (batchToSync : list (Z * string))
    : list WoltItemUpdate * list WoltInventoryItem :=
  let stockMap := js_map_of (map (fun i => (inv_id i, inv_rest i)) inventory) in
  let detailMap := js_map_of (map (fun d => (det_id d, d)) details) in
  foldl (fun acc e =>
    let quantity := default 0 (stockMap !! e.1) in
    match detailMap !! e.1 with
    | None => acc
    | Some detail =>
      (acc.1 ++ [mkItemUpd e.2 (Some (bool_decide (quantity > 0))) (det_price detail)],
       acc.2 ++ [mkInvUpd e.2 quantity])
    end) ([], []) batchToSync.

(** The loop that marks the batch as synced in [state]. *)
Definition markSynced (now : Z) (state : gmap string StateEntry)
    (batchToSync : list (Z * string)) : gmap string StateEntry :=
  foldl (fun st e =>
    let entry := default {| quantity := 0; enabled := false; price := Some 0;
                            lastSeen := now; syncedToWolt := false |} (st !! e.2) in
    <[e.2 := {| quantity := quantity entry; enabled := enabled entry;
                price := price entry; lastSeen := lastSeen entry;
                syncedToWolt := true |}]> st) state batchToSync.

(** What one iteration of the worker sends and then saves, when every
    batch is acknowledged and no stop is requested: the item payload, the
    inventory payload, the state handed to [saveState]. *)
Definition syncNextBatch (config : BackgroundWorkerConfig) (now : Z)
    (state : gmap string StateEntry) (inventory : list FinaInventoryItem)
    (details : list FinaProductDetail)
    : list WoltItemUpdate * list WoltInventoryItem * gmap string StateEntry :=
  let unsynced := unsyncedItems config state details in
  match unsynced with
  | [] => ([], [], state)
  | _ =>
    let batchToSync := take (dailyLimit config) unsynced in
    let payloads := buildPayloads inventory details batchToSync in
    (payloads.1, payloads.2, markSynced now state batchToSync)
  end.

End BackgroundWorker.

(** ** src/core/hybridSync.ts *)
Module HybridSync.
Import PriorityScorer AdaptiveBatcher.

(** [fina.mapToWoltSku] on the details the priority phase fetched: the SKU
    is the value of the first [usr_column_514] field, when that value is not
    empty. *)
Definition mapToWoltSku (details : list ProductDetail) : gmap Z string :=
  foldl (fun m product =>
    match pd_add_fields product with
    | Some fs =>
      match List.find (fun f => bool_decide (field f = "usr_column_514")) fs with
      | Some woltField =>
        if bool_decide (value woltField ≠ "")
        then <[pd_id product := value woltField]> m else m
      | None => m
      end
    | None => m
    end) ∅ details.


(** A [WoltItemUpdate] as the phase builds it: [price] is the number the
    scored item carries, or the literal [0]. *)
Record ItemUpdate := mkItem {
  item_sku : string;
  item_enabled : bool;
  item_price : option Js.number
}.

(** [typeof item.price === 'number' && item.price >= 0] *)
Definition hasValidPrice (p : option Js.number) : bool :=
  match p with
  | Some n => Js.ge n (Js.Finite 0)
  | None => false
  end.

(** The variables of the payload loop of [prioritySync]. *)
Record payloads := mkPayloads {
  itemUpdates : list ItemUpdate;
  inventoryUpdates : list WoltInventoryItem;
  syncedSkus : list string;
  invalidPriceCount : nat
}.

(** One iteration of [for (const item of topItems)]. *)
Definition payloadStep (acc : payloads) (item : PriorityScoredItem) : payloads :=
  if bool_decide (woltSku item = "") then acc
  else if negb (hasValidPrice (ps_price item)) then
    {| itemUpdates := itemUpdates acc ++ [mkItem (woltSku item) false (Some (Js.Finite 0))];
       inventoryUpdates := inventoryUpdates acc ++ [mkInvUpd (woltSku item) 0];
       syncedSkus := syncedSkus acc ++ [woltSku item];
       invalidPriceCount := S (invalidPriceCount acc) |}
  else
    {| itemUpdates := itemUpdates acc ++
         [mkItem (woltSku item) (bool_decide (ps_rest item > 0)) (ps_price item)];
       inventoryUpdates := inventoryUpdates acc ++ [mkInvUpd (woltSku item) (ps_rest item)];
       syncedSkus := syncedSkus acc ++ [woltSku item];
       invalidPriceCount := invalidPriceCount acc |}.

Definition buildPayloads (topItems : list PriorityScoredItem) : payloads :=
  foldl payloadStep (mkPayloads [] [] [] 0) topItems.

(** How a call to the marketplace adapter ends: it resolves, with the
    [rateLimitHit] flag of its result; it rejects with an error whose
    [response.status] is 429; it rejects with any other error. *)
Inductive answer :=
| Resolved (rateLimitHit : bool)
| RateLimited
| Rejected.

(** What the phase does to the outside: the calls to the adapter, each with
    the batch it carries and the way it ended, and the write of the state. *)
Inductive event :=
| UpdateItems (batch : list ItemUpdate) (a : answer)
| UpdateInventory (batch : list WoltInventoryItem) (a : answer)
| SaveState (state : gmap string StateEntry).

(** The events so far and the [config] map of the adaptive batcher. *)
Record run := mkRun {
  trace : list event;
  batcher : gmap string AdaptiveBatchConfig
}.

Inductive outcome :=
| Completed
| Thrown
| OutOfFuel.

Section Phase.
Variable env : Env.
Variable venueId : string.
(** The answer to the [n]-th call of the adapter, and [Date.now()] when the
    batcher handles it. *)
Variable wolt : nat -> answer.
Variable clock : nat -> Z.

(** One loop of [adaptiveSync],
    [for (let i = 0; i < updates.length; i += currentBatchSize)]: [send] is
    the adapter method, [readsRateLimitHit] tells the loop of the item
    updates, which looks at [result.rateLimitHit], from the loop of the
    inventory updates, which does not.  The batch is cut with the size in
    force before the call; the batcher's answer then replaces the size, and
    the loop advances by the new one.  After a 429 [i -= currentBatchSize]
    and [continue], followed by the increment of the loop, leave [i] where
    it was.  Each call uses one unit of [fuel]. *)
Fixpoint pushLoop {A} (send : list A -> answer -> event) (readsRateLimitHit : bool)
    (updates : list A) (fuel : nat) (i currentBatchSize : Z) (s : run) : outcome * run :=
  if bool_decide (i < Z.of_nat (length updates)) then
    match fuel with
    | O => (OutOfFuel, s)
    | S fuel' =>
      let n := length (trace s) in
      let batch := Js.slice i (i + currentBatchSize) updates in
      let sent := trace s ++ [send batch (wolt n)] in
      match wolt n with
      | Resolved rateLimitHit =>
        let r := if readsRateLimitHit && rateLimitHit
                 then onRateLimit env (clock n) (batcher s) venueId
                 else onSuccess env (batcher s) venueId in
        pushLoop send readsRateLimitHit updates fuel' (i + r.2) r.2 (mkRun sent r.1)
      | RateLimited =>
        let r := onRateLimit env (clock n) (batcher s) venueId in
        pushLoop send readsRateLimitHit updates fuel' (i - r.2 + r.2) r.2 (mkRun sent r.1)
      | Rejected => (Thrown, mkRun sent (batcher s))
      end
    end
  else (Completed, s).

Definition adaptiveSync (fuel : nat) (itemUpdates : list ItemUpdate)
    (inventoryUpdates : list WoltInventoryItem) (s : run) : outcome * run :=
  let b := getCurrentBatchSize env (batcher s) venueId in
  let s0 := mkRun (trace s) b.1 in
  let items :=
    if bool_decide (0 < length itemUpdates)%nat
    then pushLoop UpdateItems true itemUpdates fuel 0 b.2 s0
    else (Completed, s0) in
  match items.1 with
  | Completed =>
    if bool_decide (0 < length inventoryUpdates)%nat
    then
      let b' := getCurrentBatchSize env (batcher items.2) venueId in
      pushLoop UpdateInventory false inventoryUpdates fuel 0 b'.2
        (mkRun (trace items.2) b'.1)
    else items
  | _ => items
  end.

(** [(state[sku] as any).syncedToWolt = true] for the SKUs with an entry. *)
Definition markSynced (state : gmap string StateEntry) (skus : list string)
    : gmap string StateEntry :=
  foldl (fun st sku =>
    match st !! sku with
    | Some e => <[sku := mkEntry (quantity e) (enabled e) (price e) (lastSeen e) true]> st
    | None => st
    end) state skus.




End Phase.

End HybridSync.



(** * Specifications and scenarios

    The definitions below are what the properties are stated with: the diff
    and the priority phase as the specification words them, the invariants of
    the push loops, and a few concrete stores. *)
Section Specifications.
Import FinaAdapter SyncEngine.

(** The diff as the specification words it, SKU by SKU of the view. *)
Definition itemDue (forceFull : bool) (prev : gmap string StateEntry)
    (e : string * SkuData) : bool :=
  forceFull ||
  match prev !! e.1 with
  | None => true
  | Some p => bool_decide (enabled p ≠ sd_enabled e.2) || bool_decide (price p ≠ sd_price e.2)
  end.

Definition inventoryDue (forceFull : bool) (prev : gmap string StateEntry)
    (e : string * SkuData) : bool :=
  forceFull ||
  match prev !! e.1 with
  | None => true
  | Some p => bool_decide (quantity p ≠ sd_quantity e.2)
  end.


Definition itemOf (e : string * SkuData) : WoltItemUpdate :=
  mkItemUpd e.1 (Some (sd_enabled e.2)) (sd_price e.2).
Definition inventoryOf (e : string * SkuData) : WoltInventoryItem :=
  mkInvUpd e.1 (sd_quantity e.2).

(** The state of the loop after an acknowledged batch. *)
Definition acked {A} (mk : list A -> bool -> event) (skuOf : A -> string)
    (options : SyncOptions) (newState : gmap string StateEntry)
    (batch : list A) (p : progress) : progress :=
  updateSyncedState options newState (map skuOf batch) (called (mk batch true) p).

(** Every SKU of [st] was in the state the run loaded or belongs to a
    batch the marketplace acknowledged in [tr]. *)
Definition accounted (loaded st : gmap string StateEntry) (tr : list event) : Prop :=
  forall sku, is_Some (st !! sku) -> is_Some (loaded !! sku) \/ sku ∈ confirmedSkus tr.

Definition savesAccounted (loaded : gmap string StateEntry) (tr : list event) : Prop :=
  forall s, s ∈ saves tr -> accounted loaded s tr.

(** What holds between two batches of a phase: the saves made so far and
    the in-memory previous state are accounted for, and the SKUs in
    [before] and in the acknowledged batches are confirmed. *)
Definition phaseInv {A} (loaded : gmap string StateEntry) (skuOf : A -> string)
    (before : list string) (done : list (list A)) (p : progress) : Prop :=
  savesAccounted loaded (trace p) /\ accounted loaded (previousState p) (trace p) /\
  (forall sku, sku ∈ before ++ map skuOf (concat done) -> sku ∈ confirmedSkus (trace p)).

(** Every SKU of the new state is known to the previous state or has an
    item update. *)
Definition keysCovered (loaded : gmap string StateEntry) (c : changes) : Prop :=
  forall sku, is_Some (newState c !! sku) ->
    is_Some (loaded !! sku) \/ sku ∈ map it_sku (itemUpdates c).

End Specifications.

Section PrioritySpecifications.
Import PriorityScorer AdaptiveBatcher HybridSync.

(** A price that fails the scorer's test: it is not of type number, or it
    is a number below zero. *)
Definition absentOrNegative (p : option Js.number) : Prop :=
  p = None \/ p = Some Js.NegInfinity \/ exists z, p = Some (Js.Finite z) /\ z < 0.

(** A number that is at least the (finite) threshold. *)
Definition reaches (p : Js.number) (threshold : Z) : bool :=
  match p with
  | Js.Finite z => bool_decide (z >= threshold)
  | Js.PosInfinity => true
  | Js.NegInfinity | Js.NaN => false
  end.

(** The score of an item in stock. *)
Definition bonuses (cfg : PriorityConfig) (rest : Z) (highValue : bool) : Z :=
  inStockWeight cfg
  + (if bool_decide (rest >= highStockThreshold cfg) then highStockWeight cfg else 0)
  + (if bool_decide (rest <= lowStockThreshold cfg) then lowStockWeight cfg else 0)
  + (if highValue then highValueWeight cfg else 0).

(** The scoring rule as stated: a price is valid when it is a non-negative
    finite number; an invalid price gives [(0, 'invalid-price')], a valid
    one with quantity 0 gives [(0, 'out-of-stock')], and every other pair
    gets the sum of the weights. *)
Definition validPrice (p : option Js.number) : Prop :=
  exists z, p = Some (Js.Finite z) /\ 0 <= z.

Definition scoredAsStated (cfg : PriorityConfig) (inventory : FinaInventoryItem)
    (detail : ProductDetail) : Prop :=
  let r := calculatePriority cfg inventory detail in
  (~ validPrice (pd_price detail) -> r = (0, "invalid-price")) /\
  (validPrice (pd_price detail) -> inv_rest inventory = 0 -> r = (0, "out-of-stock")) /\
  (forall z, pd_price detail = Some (Js.Finite z) -> 0 <= z -> inv_rest inventory <> 0 ->
     r.1 = bonuses cfg (inv_rest inventory) (bool_decide (z >= highValueThreshold cfg))).


(** The updates the adapter was called with, in the order of the calls. *)
Definition itemBatch (e : event) : list ItemUpdate :=
  match e with
  | UpdateItems batch _ => batch
  | _ => []
  end.
Definition inventoryBatch (e : event) : list WoltInventoryItem :=
  match e with
  | UpdateInventory batch _ => batch
  | _ => []
  end.
Definition pushedItems (tr : list event) : list ItemUpdate := concat (map itemBatch tr).
Definition pushedInventory (tr : list event) : list WoltInventoryItem :=
  concat (map inventoryBatch tr).








End PrioritySpecifications.

Section PriorityScenarios.
Import PriorityScorer AdaptiveBatcher HybridSync.

(** The marketplace accepts every call. *)
Definition accepting : nat -> answer := fun _ => Resolved false.



End PriorityScenarios.

Section LimiterSpecifications.
Import WoltRateLimiter.

(** The number [n] is [D] or more. *)
Definition atLeast (D : Z) (n : Js.number) : Prop :=
  match n with
  | Js.Finite z => D <= z
  | Js.PosInfinity => True
  | Js.NegInfinity | Js.NaN => False
  end.

(** The deadline [D] is respected by the limiter's field and, when the
    limiter persists its state, by its entry in the state file, which
    [waitForTurn] reloads: there is no readable entry, or the entry holds
    [D] or more. *)
Definition gated (options : WoltRateLimiterOptions) (D : Z) (l : Limiter) : Prop :=
  atLeast D (nextAllowedAtMs l) /\
  learnedMinIntervalMs l <> Js.NaN /\
  (persists options = false \/ stateFile l = None \/
   exists s z, stateFile l = Some s /\ saved_nextAllowedAtMs s = Some z /\ D <= z).

(** A change others make to the entry leaves no deadline below [D]. *)
Definition keepsDeadline (D : Z) (c : call) : Prop :=
  match c with
  | EntryRewritten (Some s) => exists z, saved_nextAllowedAtMs s = Some z /\ D <= z
  | _ => True
  end.

(** The limiter as the specification words it, for one 429 and what
    follows it: no request is released before [N * 1000] plus the buffer
    have elapsed since the 429 was handled. *)
Definition retryAfterRespected (dateParse : string -> option Z)
    (options : WoltRateLimiterOptions) (l : Limiter) (d : nat) (v : headerValue)
    (rnd : nat) (w : writeResult) (N : Z) (cs : list call) : Prop :=
  Forall (fun t => clock l + Z.of_nat d + N * 1000 + retryAfterBufferMs options <= t)
         (released dateParse options cs (onRateLimited dateParse options d v rnd w l)).

(** A limiter with the key [venue], at time 5000; its entry in the state
    file holds an old deadline. *)
Definition staleLimiter : Limiter :=
  mkLimiter (Js.Finite 0) 4000 (Js.Finite 0) (Some (mkSaved (Some 100) (Some 0))) 5000.

(** A limiter without a key, at time 5000. *)
Definition freshLimiter : Limiter :=
  mkLimiter (Js.Finite 0) 4000 (Js.Finite 0) None 5000.

End LimiterSpecifications.


Section Stores.
Import FinaAdapter SyncEngine.

(** One product in stock, SKU [C], whose price the ERP left undefined. *)
Definition unpricedInventory : list FinaInventoryItem := [mkInv 3 7].
Definition unpricedDetails : list FinaProductDetail :=
  [mkDetail 3 None (Some [mkField "usr_column_514" "C"])].
Definition unpricedFina : responses :=
  {| getInventory := Some unpricedInventory;
     getProductDetails := fun _ => Some unpricedDetails |}.
Definition plainRun : SyncOptions :=
  {| dryRun := false; limit := None; forceFullSync := false; bootstrapState := false |}.

(** Two products: SKU [A] is known to the previous state with another
    quantity, SKU [B] is new. *)
Definition twoProducts : responses :=
  {| getInventory := Some [mkInv 1 5; mkInv 2 3];
     getProductDetails := fun _ =>
       Some [mkDetail 1 (Some 100) (Some [mkField "usr_column_514" "A"]);
             mkDetail 2 (Some 200) (Some [mkField "usr_column_514" "B"])] |}.
Definition priorA : gmap string StateEntry := {[ "A" := mkEntry 10 true (Some 100) 0 false ]}.
Definition limitedRun : SyncOptions :=
  {| dryRun := false; limit := Some 1; forceFullSync := false; bootstrapState := false |}.
Definition limitedBootstrap : SyncOptions :=
  {| dryRun := false; limit := Some 1; forceFullSync := false; bootstrapState := true |}.
Definition bootstrapRun : SyncOptions :=
  {| dryRun := false; limit := None; forceFullSync := false; bootstrapState := true |}.

(** Per-batch progress is persisted: every acknowledged batch is followed
    at once by a [saveState]. *)
Definition progressPersisted (tr : list event) : Prop :=
  forall i batchEvent,
    tr !! i = Some batchEvent ->
    (exists b, batchEvent = UpdateItems b true) \/ (exists b, batchEvent = UpdateInventory b true) ->
    exists st, tr !! S i = Some (SaveState st).

(** Every SKU with an entry in [st] belongs to a batch the marketplace
    acknowledged in [history]. *)
Definition everyEntryConfirmed (st : gmap string StateEntry) (history : list event) : Prop :=
  forall sku, is_Some (st !! sku) -> sku ∈ confirmedSkus history.

End Stores.

(** * Properties *)

(** ** JavaScript numbers *)
Section JsProps.

Lemma round_exact (z : Z) : - 2 ^ 53 <= z <= 2 ^ 53 -> Js.round z = Js.Finite z.
Proof.
  intros Hz. unfold Js.round, Js.roundMagnitude. case_bool_decide.
  - rewrite bool_decide_eq_true_2 by lia. cbn. f_equal. lia.
  - by rewrite bool_decide_eq_true_2 by lia.
Qed.

(** An integer above [2^53] is rounded to a number of [2^53] or more. *)
Lemma round_big (z : Z) :
  2 ^ 53 < z ->
  Js.round z = Js.PosInfinity \/ exists z', Js.round z = Js.Finite z' /\ 2 ^ 53 <= z'.
Proof.
  intros Hz. unfold Js.round, Js.roundMagnitude.
  rewrite (bool_decide_eq_false_2 (z < 0)) by lia.
  rewrite (bool_decide_eq_false_2 (z <= 2 ^ 53)) by lia.
  cbn zeta. case_bool_decide as Hover; [by left|]. right. eexists. split; [done|].
  set (e := Z.log2 z - 52).
  assert (53 <= Z.log2 z) as Hlog by (apply Z.log2_le_pow2; lia).
  assert (1 <= e) as He by (unfold e; lia).
  assert (0 < 2 ^ e) as Hpos by (apply Z.pow_pos_nonneg; lia).
  assert (2 ^ 52 * 2 ^ e <= z) as Hlow.
  { rewrite <- Z.pow_add_r by lia. replace (52 + e) with (Z.log2 z) by (unfold e; lia).
    apply Z.log2_spec. lia. }
  assert (2 ^ 52 <= z `div` 2 ^ e) as Hq by (apply Z.div_le_lower_bound; lia).
  assert (2 <= 2 ^ e) as H2e.
  { change 2 with (2 ^ 1) at 1. apply Z.pow_le_mono_r; lia. }
  assert (z `div` 2 ^ e <=
          (if bool_decide (2 ^ (e - 1) < z `mod` 2 ^ e \/
                           z `mod` 2 ^ e = 2 ^ (e - 1) /\ Z.odd (z `div` 2 ^ e) = true)
           then z `div` 2 ^ e + 1 else z `div` 2 ^ e)) as Hq'
    by (destruct (bool_decide _); lia).
  etransitivity; [|apply Z.mul_le_mono_nonneg_r; [lia | exact Hq']].
  change (2 ^ 53) with (2 ^ 52 * 2). apply Z.mul_le_mono_nonneg; lia.
Qed.

Lemma max_atLeast (D : Z) (a b : Js.number) :
  atLeast D a -> b <> Js.NaN -> atLeast D (Js.max a b).
Proof.
  destruct a as [x| | |], b as [y| | |]; cbn; try done.
  intros Hx _. case_bool_decide; cbn; lia.
Qed.

Lemma max_not_NaN (a b : Js.number) :
  a <> Js.NaN -> b <> Js.NaN -> Js.max a b <> Js.NaN.
Proof.
  destruct a as [x| | |], b as [y| | |]; cbn; try done.
  intros _ _. by case_bool_decide.
Qed.

Lemma min_not_NaN (a b : Js.number) :
  a <> Js.NaN -> b <> Js.NaN -> Js.min a b <> Js.NaN.
Proof.
  destruct a as [x| | |], b as [y| | |]; cbn; try done.
  intros _ _. by case_bool_decide.
Qed.

Lemma round_not_NaN (z : Z) : Js.round z <> Js.NaN.
Proof.
  unfold Js.round, Js.roundMagnitude.
  repeat (case_bool_decide; cbn; try done).
Qed.

Lemma add_Finite_not_NaN (a : Js.number) (y : Z) :
  a <> Js.NaN -> Js.add a (Js.Finite y) <> Js.NaN /\ Js.add (Js.Finite y) a <> Js.NaN.
Proof.
  destruct a as [x| | |]; cbn; try done. intros _. split; apply round_not_NaN.
Qed.

Lemma gt_not_NaN (a b : Js.number) : Js.gt a b = true -> a <> Js.NaN.
Proof. by destruct a, b. Qed.

Lemma isFinite_Finite (a : Js.number) : Js.isFinite a = true -> exists z, a = Js.Finite z.
Proof. destruct a as [z| | |]; try done. by exists z. Qed.

End JsProps.

(** ** PriorityScorer *)
Section PriorityScorerProps.
Import PriorityScorer.

Lemma lt_zero_absentOrNegative (p : Js.number) :
  Js.lt p (Js.Finite 0) = true <-> absentOrNegative (Some p).
Proof.
  unfold absentOrNegative. split.
  - destruct p as [z| | |]; simpl; try done.
    + intros H%bool_decide_eq_true. right. right. by exists z.
    + intros _. right. by left.
  - intros [H | [H | (z & H & Hz)]]; [done | by injection H as -> |].
    injection H as ->. simpl. by apply bool_decide_eq_true_2.
Qed.

Lemma ge_reaches (p : Js.number) (threshold : Z) :
  Js.ge p (Js.Finite threshold) = reaches p threshold.
Proof. by destruct p. Qed.

Lemma calculatePriority_invalid (cfg : PriorityConfig) (item : FinaInventoryItem)
    (detail : ProductDetail) :
  absentOrNegative (pd_price detail) ->
  calculatePriority cfg item detail = (0, "invalid-price").
Proof.
  intros H. unfold calculatePriority. destruct (pd_price detail) as [p|]; [|done].
  apply lt_zero_absentOrNegative in H. by rewrite H.
Qed.


(** C10 (amended). [calculatePriority] returns score 0 with reason
    ['invalid-price'] when the price is not of type number or is a number
    below zero (negative infinity included).  For every other price, that
    is [NaN], positive infinity or a finite number that is not negative, it
    returns score 0 with reason ['out-of-stock'] when the quantity is zero
    or less, and for a positive quantity [inStockWeight], plus
    [highStockWeight] when the quantity reaches [highStockThreshold], plus
    [lowStockWeight] when the quantity is at most [lowStockThreshold], plus
    [highValueWeight] when the price reaches [highValueThreshold], which
    positive infinity does and [NaN] does not. *)
Theorem calculatePriority_spec (cfg : PriorityConfig)
    (inventory : FinaInventoryItem) (detail : ProductDetail) :
  (absentOrNegative (pd_price detail) ->
     calculatePriority cfg inventory detail = (0, "invalid-price")) /\
  (forall p, pd_price detail = Some p ->
     p = Js.NaN \/ p = Js.PosInfinity \/ (exists z, p = Js.Finite z /\ 0 <= z) ->
     (inv_rest inventory <= 0 ->
        calculatePriority cfg inventory detail = (0, "out-of-stock")) /\
     (0 < inv_rest inventory ->
        (calculatePriority cfg inventory detail).1 =
          bonuses cfg (inv_rest inventory) (reaches p (highValueThreshold cfg)))).
Proof.
  split; [apply calculatePriority_invalid|].
  intros p Hp Hcase. unfold calculatePriority. rewrite Hp.
  assert (Js.lt p (Js.Finite 0) = false) as ->.
  { destruct Hcase as [-> | [-> | (z & -> & Hz)]]; [done | done |].
    simpl. apply bool_decide_eq_false_2. lia. }
  rewrite ge_reaches. split.
  - intros Hrest. by rewrite bool_decide_eq_false_2 by lia.
  - intros Hrest. rewrite (bool_decide_eq_true_2 (inv_rest inventory > 0)) by lia.
    unfold bonuses. destruct (reaches p (highValueThreshold cfg));
      repeat case_bool_decide; simpl; lia.
Qed.

Lemma calculatePriority_spec_witness :
  calculatePriority defaultConfig (mkInv 1 5) (mkProduct 1 None None) = (0, "invalid-price") /\
  calculatePriority defaultConfig (mkInv 1 (-2)) (mkProduct 1 (Some (Js.Finite 100)) None)
    = (0, "out-of-stock") /\
  (calculatePriority defaultConfig (mkInv 1 5) (mkProduct 1 (Some Js.PosInfinity) None)).1
    = 100 + 0 + 10 + 15.
Proof.
  split; [|split].
  - apply (calculatePriority_spec defaultConfig (mkInv 1 5) (mkProduct 1 None None)).
    by left.
  - refine (proj1 (proj2 (calculatePriority_spec defaultConfig (mkInv 1 (-2))
              (mkProduct 1 (Some (Js.Finite 100)) None)) (Js.Finite 100) eq_refl _) _).
    + right. right. exists 100. split; [reflexivity | lia].
    + simpl. lia.
  - refine (proj2 (proj2 (calculatePriority_spec defaultConfig (mkInv 1 5)
              (mkProduct 1 (Some Js.PosInfinity) None)) Js.PosInfinity eq_refl _) _).
    + right. by left.
    + simpl. lia.
Defined.

(** C10 (as stated) fails on two inputs.  A product in stock whose price is
    [Infinity] (the JSON literal [1e999]) is not priced by a finite number,
    yet it scores 125 and is not reported as ['invalid-price'].  A validly
    priced product whose quantity is negative falls under the last case of
    the rule, which adds the weights up to 125, yet it scores 0 with reason
    ['out-of-stock']. *)
Theorem infinite_price_counterexample :
  calculatePriority defaultConfig (mkInv 1 5) (mkProduct 1 (Some Js.PosInfinity) None)
    = (125, "in-stock, low-stock, high-value") /\
  ~ scoredAsStated defaultConfig (mkInv 1 5) (mkProduct 1 (Some Js.PosInfinity) None) /\
  calculatePriority defaultConfig (mkInv 2 (-2)) (mkProduct 2 (Some (Js.Finite 100)) None)
    = (0, "out-of-stock") /\
  ~ scoredAsStated defaultConfig (mkInv 2 (-2)) (mkProduct 2 (Some (Js.Finite 100)) None).
Proof.
  split; [reflexivity|]. split; [|split; [reflexivity|]].
  - intros (H & _ & _). cbn in H.
    assert (~ validPrice (Some Js.PosInfinity)) as Hn by (by intros (z & [=] & _)).
    specialize (H Hn). discriminate H.
  - intros (_ & _ & H). specialize (H 100 eq_refl ltac:(lia) ltac:(simpl; lia)).
    vm_compute in H. discriminate H.
Qed.

End PriorityScorerProps.


(** ** AdaptiveBatcher *)
Section AdaptiveBatcherProps.
Import AdaptiveBatcher.

(** C4 (what the code does). With no persisted state for the venue and no
    environment override, the batcher initialises the venue with a batch
    size of 1000, a minimum of 10 and a maximum of 5000: the first batch
    it sizes has more than 200 items. *)
Theorem initConfig_without_overrides (venueId : string) :
  let c := (getConfig noEnv ∅ venueId).2 in
  currentBatchSize c = 1000 /\ minBatchSize c = 10 /\ maxBatchSize c = 5000 /\
  (getCurrentBatchSize noEnv ∅ venueId).2 > 200.
Proof.
  unfold getCurrentBatchSize, getConfig. rewrite lookup_empty. simpl.
  repeat split; lia.
Qed.

End AdaptiveBatcherProps.

(** ** StateManager *)
Section StateManagerProps.
Import StateManager.

Lemma readStateFile_run (p : path) (d : disk) (log : list access) :
  readStateFile p d log = (Ok (validFile (d p)), log ++ [ReadJson p]).
Proof.
  unfold readStateFile, try_catch, bind, readJson, validFile, ret.
  destruct (d p) as [[|j]|]; try done.
  by destruct (isValidState j).
Qed.

Lemma runLoad_eq (d : disk) (storeId : Z) :
  runLoad d storeId =
  let sp := StatePath storeId in
  let bp := BackupPath storeId in
  match d sp with
  | None => (Ok emptyState, [PathExists sp])
  | Some _ =>
    match validFile (d sp) with
    | Some st => (Ok st, [PathExists sp; ReadJson sp])
    | None =>
      match d bp with
      | None => (Ok emptyState, [PathExists sp; ReadJson sp; PathExists bp])
      | Some _ =>
        (Ok (default emptyState (validFile (d bp))),
         [PathExists sp; ReadJson sp; PathExists bp; ReadJson bp])
      end
    end
  end.
Proof.
  unfold runLoad, loadState, readStateFile, try_catch, bind, pathExists, readJson, ret, validFile.
  cbn zeta.
  destruct (d (StatePath storeId)) as [[|j]|] eqn:Hp;
    destruct (d (BackupPath storeId)) as [[|b]|] eqn:Hb;
    repeat (progress (cbn; rewrite ?Hp, ?Hb));
    try (destruct (isValidState j));
    repeat (progress (cbn; rewrite ?Hp, ?Hb));
    try done; by destruct (isValidState b).
Qed.

(** C5. [loadState] of an absent primary file returns the empty map after
    the single existence test of the primary path (the backup is neither
    tested nor read); with a primary that exists but does not parse or
    fails validation it returns the backup when the backup is a valid
    state file and the empty map otherwise; it never throws. *)
Theorem loadState_spec (d : disk) (storeId : Z) :
  (d (StatePath storeId) = None ->
     runLoad d storeId = (Ok emptyState, [PathExists (StatePath storeId)])) /\
  (is_Some (d (StatePath storeId)) -> validFile (d (StatePath storeId)) = None ->
     (forall backup, validFile (d (BackupPath storeId)) = Some backup ->
        (runLoad d storeId).1 = Ok backup) /\
     (validFile (d (BackupPath storeId)) = None ->
        (runLoad d storeId).1 = Ok emptyState)) /\
  (exists st, (runLoad d storeId).1 = Ok st).
Proof.
  rewrite runLoad_eq. cbn zeta. split; [|split].
  - by intros ->.
  - intros [c Hc] Hv. rewrite Hc, <- Hc, Hv.
    destruct (d (BackupPath storeId)) as [b|] eqn:Hb; simpl.
    + split; [by intros ? -> | by intros ->].
    + split; [by intros ? ? | done].
  - destruct (d (StatePath storeId)); [|by eexists].
    destruct (validFile _); [by eexists|].
    destruct (d (BackupPath storeId)); by eexists.
Qed.

Lemma loadState_spec_witness :
  runLoad corruptWithBackup 2 = (Ok emptyState, [PathExists (StatePath 2)]) /\
  (runLoad corruptWithBackup 1).1 = Ok validDoc /\
  (runLoad bothCorrupt 1).1 = Ok emptyState.
Proof.
  split; [|split].
  - apply (loadState_spec corruptWithBackup 2). reflexivity.
  - apply (loadState_spec corruptWithBackup 1); [by eexists | reflexivity | reflexivity].
  - apply (loadState_spec bothCorrupt 1); [by eexists | reflexivity | reflexivity].
Defined.

End StateManagerProps.

(** ** WoltRateLimiter *)
Section WoltRateLimiterProps.
Import WoltRateLimiter.

Variable dateParse : string -> option Z.
Variable options : WoltRateLimiterOptions.

Lemma gateAt_atLeast (D : Z) (l : Limiter) :
  atLeast D (nextAllowedAtMs l) -> learnedMinIntervalMs l <> Js.NaN ->
  atLeast D (gateAt options l).
Proof.
  intros Hnext Hlearned. unfold gateAt. apply max_atLeast; [done|].
  case_bool_decide; [|done].
  apply add_Finite_not_NaN, max_not_NaN; done.
Qed.

Lemma gated_reloaded (D : Z) (l : Limiter) (d : nat) :
  gated options D l -> gated options D (reloaded options d l).
Proof.
  intros (Hmem & Hlearned & Hfile). unfold reloaded, gated.
  destruct (persists options) eqn:Hk; [|done].
  destruct Hfile as [? | [Hnone | (s & z & Hs & Hz & HD)]]; [done | |].
  - unfold loadState. cbn [elapse stateFile]. rewrite Hnone. cbn. auto.
  - unfold loadState. cbn [elapse stateFile]. rewrite Hs. cbn. rewrite Hz. cbn.
    split; [done|]. split; [done|]. right. right. by exists s, z.
Qed.

(** A request that [waitForTurn] holds back with a delay the timer can
    keep is released at the gate, or later. *)
Lemma gated_waitForTurn (D : Z) (l : Limiter) (d late : nat) :
  gated options D l ->
  match waitMs options d l with
  | Some ms => Js.le ms (Js.Finite TIMEOUT_MAX) = true
  | None => True
  end ->
  gated options D (waitForTurn options d late l) /\
  D <= clock (waitForTurn options d late l).
Proof.
  intros Hg Hwait. apply (gated_reloaded D l d) in Hg.
  unfold waitForTurn, waitMs in *. cbn zeta in *.
  set (l1 := reloaded options d l) in *.
  destruct Hg as (Hmem & Hlearned & Hfile).
  pose proof (gateAt_atLeast D l1 Hmem Hlearned) as Hgate.
  split; [by split|]. cbn [clock].
  destruct (gateAt options l1) as [g| | |] eqn:Hgeq; cbn in Hgate; try done.
  cbn [Js.gt Js.lt] in *. case_bool_decide as Hlt; [|lia].
  unfold Js.sub in *. cbn [Js.neg Js.add] in *.
  destruct (decide (g + - clock l1 <= 2 ^ 53)) as [Hsmall|Hbig].
  - rewrite round_exact in * by lia. cbn in Hwait.
    apply bool_decide_eq_true in Hwait. cbn.
    rewrite bool_decide_eq_true_2 by lia. lia.
  - destruct (round_big (g + - clock l1)) as [Hr | (z' & Hr & Hz')]; [lia | |];
      rewrite Hr in Hwait; cbn in Hwait; [done|].
    apply bool_decide_eq_true in Hwait. unfold TIMEOUT_MAX in Hwait. lia.
Qed.

Lemma gated_onRateLimited_again (D : Z) (l : Limiter) (d : nat) (v : headerValue)
    (rnd : nat) (w : writeResult) :
  gated options D l ->
  persists options = false \/
    Js.isFinite (nextAllowedAtMs (onRateLimited dateParse options d v rnd w l)) = true ->
  gated options D (onRateLimited dateParse options d v rnd w l).
Proof.
  intros (Hmem & Hlearned & Hfile). unfold onRateLimited. cbn zeta.
  destruct (parseRetryAfterMs dateParse v (clock (elapse d l))) as [ms|]; cbn [default];
    [|intros _; rewrite andb_false_r; by split].
  destruct (Js.gt ms (Js.Finite 0)) eqn:Hpos; [|intros _; rewrite andb_false_r; by split].
  pose proof (gt_not_NaN _ _ Hpos) as Hms.
  set (nextAllowed := Js.add _ _).
  assert (nextAllowed <> Js.NaN) as Hnext.
  { unfold nextAllowed. do 2 apply add_Finite_not_NaN. by apply add_Finite_not_NaN. }
  pose proof (max_atLeast D _ nextAllowed Hmem Hnext) as Hmax.
  assert ((if learnMinIntervalFromRetryAfter options && true
           then Js.min (Js.max (learnedMinIntervalMs (elapse d l)) ms)
                       (Js.Finite (maxLearnedMinIntervalMs options))
           else learnedMinIntervalMs (elapse d l)) <> Js.NaN) as Hlearned'.
  { destruct (learnMinIntervalFromRetryAfter options); cbn [andb]; [|done].
    apply min_not_NaN; [|done]. by apply max_not_NaN. }
  unfold saveState, gated. destruct (persists options); cbn; [|intros _; auto].
  intros [?|Hfin]; [done|]. split; [done|]. split; [done|]. right.
  destruct Hfile as [? | Hfile]; [done|].
  destruct w; [right | exact Hfile | by left].
  apply isFinite_Finite in Hfin as [z Hz]. cbn in Hmax. rewrite Hz in Hmax |- *.
  eexists _, z. split; [done|]. split; [done|]. exact Hmax.
Qed.

Lemma gated_onSuccess (D : Z) (l : Limiter) (d : nat) :
  gated options D l -> gated options D (onSuccess options d l).
Proof.
  intros (Hmem & Hlearned & Hfile). unfold onSuccess.
  destruct (enforceLearnedMinIntervalAfterSuccess options); cbn [negb]; [|by split].
  cbn zeta.
  destruct (Js.le (Js.max (Js.Finite (minIntervalMs options))
                          (learnedMinIntervalMs (elapse d l))) (Js.Finite 0));
    [by split|].
  split; [|by split]. cbn [nextAllowedAtMs elapse]. apply max_atLeast; [done|].
  apply add_Finite_not_NaN, max_not_NaN; done.
Qed.

Lemma gated_rewriteEntry (D : Z) (l : Limiter) (entry : option RateLimiterState) :
  gated options D l -> keepsDeadline D (EntryRewritten entry) ->
  gated options D (rewriteEntry entry l).
Proof.
  intros (Hmem & Hlearned & _) Hkeep. split; [done|]. split; [done|]. right.
  destruct entry as [s|]; [right | by left].
  destruct Hkeep as (z & Hz & HD). by exists s, z.
Qed.

Lemma gated_released (D : Z) (cs : list call) (l : Limiter) :
  gated options D l ->
  Forall (keepsDeadline D) cs ->
  persists options = false \/
    Forall (fun n => Js.isFinite n = true) (deadlines dateParse options cs l) ->
  Forall (fun ms => Js.le ms (Js.Finite TIMEOUT_MAX) = true) (waits dateParse options cs l) ->
  Forall (fun t => D <= t) (released dateParse options cs l).
Proof.
  revert l. induction cs as [|c cs IH]; intros l Hg Hkeep Hfin Hwaits; [by constructor|].
  apply Forall_cons in Hkeep as [Hc Hkeep].
  destruct c as [d late | d v rnd w | d | entry]; cbn [released waits deadlines step] in *.
  - destruct (gated_waitForTurn D l d late Hg) as [Hg' Ht].
    { destruct (waitMs options d l); [|done]. by apply Forall_cons in Hwaits as [? _]. }
    constructor; [done|]. apply IH; [done | done | done |].
    destruct (waitMs options d l); [|done]. by apply Forall_cons in Hwaits as [_ ?].
  - apply IH; [|done| |done].
    + apply gated_onRateLimited_again; [done|].
      destruct Hfin as [?|Hfin]; [by left|]. right. by apply Forall_cons in Hfin as [? _].
    + destruct Hfin as [?|Hfin]; [by left|]. right. by apply Forall_cons in Hfin as [_ ?].
  - apply IH; [|done|done|done]. by apply gated_onSuccess.
  - apply IH; [|done|done|done]. by apply gated_rewriteEntry.
Qed.

(** The 429 itself: the deadline is computed without rounding, and it is
    in the state file unless the write failed over an older entry. *)
Lemma gated_onRateLimited (l : Limiter) (d : nat) (v : headerValue) (rnd : nat)
    (w : writeResult) (N : Z) :
  0 < N ->
  parseRetryAfterMs dateParse v (clock l + Z.of_nat d) = Some (Js.Finite (N * 1000)) ->
  0 <= clock l ->
  0 <= retryAfterBufferMs options ->
  clock l + Z.of_nat d + N * 1000 + retryAfterBufferMs options
    + Z.max 0 (retryAfterJitterMs options) <= 2 ^ 53 ->
  Js.isFinite (nextAllowedAtMs l) = true ->
  Js.isFinite (learnedMinIntervalMs l) = true ->
  persists options = false \/ w <> Failed \/ stateFile l = None ->
  gated options (clock l + Z.of_nat d + N * 1000 + retryAfterBufferMs options)
        (onRateLimited dateParse options d v rnd w l).
Proof.
  intros HN Hparse Hclock Hbuffer Hsafe Hnext Hlearned Hwrite.
  apply isFinite_Finite in Hnext as [next Hnext].
  apply isFinite_Finite in Hlearned as [learned Hlearned].
  unfold onRateLimited. cbn [elapse clock nextAllowedAtMs learnedMinIntervalMs
    lastRequestAtMs stateFile]. cbn zeta.
  rewrite Hparse, Hnext, Hlearned. cbn [from_option id Js.gt Js.lt].
  rewrite (bool_decide_eq_true_2 (0 < N * 1000)) by lia.
  set (jitter := if bool_decide (retryAfterJitterMs options > 0)
                 then Z.of_nat rnd `mod` retryAfterJitterMs options else 0).
  assert (0 <= jitter <= Z.max 0 (retryAfterJitterMs options)) as Hj.
  { unfold jitter. case_bool_decide; [|lia].
    pose proof (Z.mod_pos_bound (Z.of_nat rnd) (retryAfterJitterMs options)). lia. }
  cbn [Js.add]. rewrite (round_exact (clock l + Z.of_nat d + N * 1000)) by lia.
  cbn [Js.add]. rewrite (round_exact (_ + retryAfterBufferMs options)) by lia.
  cbn [Js.add]. rewrite (round_exact (_ + jitter)) by lia.
  assert (learnedOk :
    (if learnMinIntervalFromRetryAfter options && true
     then Js.min (Js.max (Js.Finite learned) (Js.Finite (N * 1000)))
                 (Js.Finite (maxLearnedMinIntervalMs options))
     else Js.Finite learned) <> Js.NaN).
  { destruct (learnMinIntervalFromRetryAfter options); cbn [andb]; [|done].
    apply min_not_NaN; [|done]. by apply max_not_NaN. }
  assert (Hmax : exists z,
    Js.max (Js.Finite next)
      (Js.Finite (clock l + Z.of_nat d + N * 1000 + retryAfterBufferMs options + jitter))
      = Js.Finite z /\
    clock l + Z.of_nat d + N * 1000 + retryAfterBufferMs options <= z).
  { cbn. case_bool_decide; eexists; (split; [done|]); lia. }
  destruct Hmax as (z & -> & Hz).
  unfold saveState, gated. destruct (persists options); cbn.
  - split; [done|]. split; [done|]. right.
    destruct Hwrite as [? | [Hw | Hnone]]; [done | |].
    + destruct w; [right | done | by left]. eexists _, z. done.
    + destruct w; [right | by left | by left]. eexists _, z. done.
  - split; [done|]. split; [done|]. by left.
Qed.

(** C9 (amended). Take a limiter whose two numbers are finite and a 429
    whose [Retry-After] value parses to a positive [N] seconds, handled
    when the deadline it sets, the jitter included, is an integer up to
    [2^53]; the write of the state must not fail over an older entry of
    the state file.  Let the calls that follow be made one after the
    other, and let nobody else leave a lower deadline in the limiter's
    entry of the state file.  As long as every delay [waitForTurn] asks
    for is one a timer can keep (at most [2^31 - 1] ms; a timer does not
    fire early) and, for a limiter with a key, every deadline a later 429
    saves is finite, no call of [waitForTurn] lets a request through
    before [N * 1000] plus the configured buffer milliseconds have elapsed
    since the 429 was handled. *)
Theorem no_request_before_retry_after (l : Limiter) (d : nat) (v : headerValue)
    (rnd : nat) (w : writeResult) (N : Z) (cs : list call) :
  0 < N ->
  parseRetryAfterMs dateParse v (clock l + Z.of_nat d) = Some (Js.Finite (N * 1000)) ->
  0 <= clock l ->
  0 <= retryAfterBufferMs options ->
  clock l + Z.of_nat d + N * 1000 + retryAfterBufferMs options
    + Z.max 0 (retryAfterJitterMs options) <= 2 ^ 53 ->
  Js.isFinite (nextAllowedAtMs l) = true ->
  Js.isFinite (learnedMinIntervalMs l) = true ->
  persists options = false \/ w <> Failed \/ stateFile l = None ->
  Forall (keepsDeadline (clock l + Z.of_nat d + N * 1000 + retryAfterBufferMs options)) cs ->
  persists options = false \/
    Forall (fun n => Js.isFinite n = true)
           (deadlines dateParse options cs (onRateLimited dateParse options d v rnd w l)) ->
  Forall (fun ms => Js.le ms (Js.Finite TIMEOUT_MAX) = true)
         (waits dateParse options cs (onRateLimited dateParse options d v rnd w l)) ->
  Forall (fun t => clock l + Z.of_nat d + N * 1000 + retryAfterBufferMs options <= t)
         (released dateParse options cs (onRateLimited dateParse options d v rnd w l)).
Proof.
  intros HN Hparse Hclock Hbuffer Hsafe Hnext Hlearned Hwrite Hkeep Hfin Hwaits.
  apply gated_released; [|done|done|done]. by apply gated_onRateLimited.
Qed.

(** C9 (as stated) fails in two ways.  A limiter with a key reloads its
    entry of the state file in [waitForTurn]; when the write of the new
    deadline fails, the old entry replaces the deadline in memory, and a
    request is released 100 ms after a 429 that asked for an hour.  And a
    delay above [2^31 - 1] ms is more than a timer keeps: after a 429 that
    asks for 2147484 seconds the request is released 1 ms later. *)
Theorem early_release_counterexample :
  parseRetryAfterMs (fun _ => None) (HStr "3600") 5000 = Some (Js.Finite (3600 * 1000)) /\
  released (fun _ => None) (defaultOptions (Some "venue")) [WaitForTurn 100 0]
    (onRateLimited (fun _ => None) (defaultOptions (Some "venue")) 0 (HStr "3600") 77 Failed
       staleLimiter) = [5100] /\
  ~ retryAfterRespected (fun _ => None) (defaultOptions (Some "venue")) staleLimiter 0
      (HStr "3600") 77 Failed 3600 [WaitForTurn 100 0] /\
  parseRetryAfterMs (fun _ => None) (HStr "2147484") 5000
    = Some (Js.Finite (2147484 * 1000)) /\
  released (fun _ => None) (defaultOptions None) [WaitForTurn 0 0]
    (onRateLimited (fun _ => None) (defaultOptions None) 0 (HStr "2147484") 77 Written
       freshLimiter) = [5001] /\
  ~ retryAfterRespected (fun _ => None) (defaultOptions None) freshLimiter 0
      (HStr "2147484") 77 Written 2147484 [WaitForTurn 0 0].
Proof.
  assert (released (fun _ => None) (defaultOptions (Some "venue")) [WaitForTurn 100 0]
    (onRateLimited (fun _ => None) (defaultOptions (Some "venue")) 0 (HStr "3600") 77 Failed
       staleLimiter) = [5100]) as H1 by (vm_compute; reflexivity).
  assert (released (fun _ => None) (defaultOptions None) [WaitForTurn 0 0]
    (onRateLimited (fun _ => None) (defaultOptions None) 0 (HStr "2147484") 77 Written
       freshLimiter) = [5001]) as H2 by (vm_compute; reflexivity).
  split; [vm_compute; reflexivity|]. split; [exact H1|]. split; [|split; [|split]].
  - unfold retryAfterRespected. rewrite H1. intros H%Forall_cons. cbn in H. lia.
  - vm_compute; reflexivity.
  - exact H2.
  - unfold retryAfterRespected. rewrite H2. intros H%Forall_cons. cbn in H. lia.
Qed.

End WoltRateLimiterProps.

Lemma no_request_before_retry_after_witness :
  let options := WoltRateLimiter.defaultOptions (Some "venue") in
  let cs := [WoltRateLimiter.WaitForTurn 10 0; WoltRateLimiter.OnSuccess 300;
             WoltRateLimiter.EntryRewritten
               (Some (WoltRateLimiter.mkSaved (Some 9000) None));
             WoltRateLimiter.OnRateLimited 5 (WoltRateLimiter.HStr "1") 3
               WoltRateLimiter.Failed;
             WoltRateLimiter.WaitForTurn 0 3] in
  let l' := WoltRateLimiter.onRateLimited (fun _ => None) options 0
              (WoltRateLimiter.HStr " 2 ") 77 WoltRateLimiter.Written staleLimiter in
  0 < 2 /\
  WoltRateLimiter.parseRetryAfterMs (fun _ => None) (WoltRateLimiter.HStr " 2 ")
    (5000 + Z.of_nat 0) = Some (Js.Finite (2 * 1000)) /\
  0 <= 5000 /\
  0 <= 1000 /\
  5000 + Z.of_nat 0 + 2 * 1000 + 1000 + Z.max 0 250 <= 2 ^ 53 /\
  Forall (keepsDeadline (5000 + Z.of_nat 0 + 2 * 1000 + 1000)) cs /\
  Forall (fun n => Js.isFinite n = true)
    (WoltRateLimiter.deadlines (fun _ => None) options cs l') /\
  Forall (fun ms => Js.le ms (Js.Finite WoltRateLimiter.TIMEOUT_MAX) = true)
    (WoltRateLimiter.waits (fun _ => None) options cs l') /\
  Forall (fun t => 5000 + Z.of_nat 0 + 2 * 1000 + 1000 <= t)
    (WoltRateLimiter.released (fun _ => None) options cs l').
Proof.
  cbn zeta.
  assert (Forall (keepsDeadline (5000 + Z.of_nat 0 + 2 * 1000 + 1000))
            [WoltRateLimiter.WaitForTurn 10 0; WoltRateLimiter.OnSuccess 300;
             WoltRateLimiter.EntryRewritten
               (Some (WoltRateLimiter.mkSaved (Some 9000) None));
             WoltRateLimiter.OnRateLimited 5 (WoltRateLimiter.HStr "1") 3
               WoltRateLimiter.Failed;
             WoltRateLimiter.WaitForTurn 0 3]) as Hkeep.
  { repeat (constructor; [try exact I|]); [|constructor].
    exists 9000. split; [reflexivity | simpl; lia]. }
  split; [lia|]. split; [vm_compute; reflexivity|]. split; [lia|]. split; [lia|].
  split; [simpl; lia|]. split; [exact Hkeep|].
  split; [vm_compute; repeat constructor|]. split; [vm_compute; repeat constructor|].
  apply (no_request_before_retry_after (fun _ => None)
           (WoltRateLimiter.defaultOptions (Some "venue"))
           staleLimiter 0 (WoltRateLimiter.HStr " 2 ") 77 WoltRateLimiter.Written 2).
  - lia.
  - vm_compute; reflexivity.
  - simpl; lia.
  - simpl; lia.
  - simpl; lia.
  - reflexivity.
  - reflexivity.
  - right. left. discriminate.
  - exact Hkeep.
  - right. vm_compute. repeat constructor.
  - vm_compute. repeat constructor.
Defined.

(** ** SyncEngine and BackgroundWorker: the invalid-price scenario *)
Section InvalidPrice.
Import FinaAdapter SyncEngine.

(** C1 (what the code does). On a product in stock whose price is
    undefined, a [SyncEngine] run with no prior state sends the item update
    with [enabled = true] and no price, the inventory update with the full
    quantity 7, and saves a state entry of quantity 7, enabled; an iteration
    of the [BackgroundWorker] sends the same two updates. *)
Theorem unpriced_sku_is_sent_in_stock (now : Z) :
  runWithOptions defaultBatchConfig true plainRun ∅ unpricedFina (fun _ => true) now =
    (Completed,
     [UpdateItems [mkItemUpd "C" (Some true) None] true;
      SaveState {[ "C" := mkEntry 7 true None now false ]};
      UpdateInventory [mkInvUpd "C" 7] true;
      SaveState {[ "C" := mkEntry 7 true None now false ]};
      SaveState {[ "C" := mkEntry 7 true None now false ]}]) /\
  BackgroundWorker.syncNextBatch BackgroundWorker.defaultConfig now ∅
      unpricedInventory unpricedDetails =
    ([mkItemUpd "C" (Some true) None], [mkInvUpd "C" 7],
     {[ "C" := mkEntry 0 false (Some 0) now true ]}).
Proof. split; vm_compute; reflexivity. Qed.

End InvalidPrice.

(** ** SyncEngine: the guards on the ERP responses *)
Section Guards.
Import FinaAdapter SyncEngine.

(** C2. A run whose inventory fetch returns no item, or whose
    product-details fetch returns fewer records than ids were requested,
    produces no event at all: no call to either marketplace endpoint and no
    [saveState]; the persisted state is what it was. *)
Theorem partial_feed_has_no_effect (cfg : BatchConfig) (storeEnabled : bool)
    (options : SyncOptions) (loaded : gmap string StateEntry) (fina : responses)
    (wolt : nat -> bool) (now : Z) :
  (getInventory fina = Some [] \/
   exists inventory details,
     getInventory fina = Some inventory /\
     getProductDetails fina (map inv_id inventory) = Some details /\
     (length details < length inventory)%nat) ->
  let tr := (runWithOptions cfg storeEnabled options loaded fina wolt now).2 in
  tr = [] /\ sentItems tr = [] /\ sentInventory tr = [] /\ saves tr = [] /\
  persisted loaded tr = loaded.
Proof.
  intros H.
  assert ((runWithOptions cfg storeEnabled options loaded fina wolt now).2 = []) as ->;
    [|done].
  unfold runWithOptions. destruct storeEnabled; [|done]. cbn [negb].
  destruct H as [-> | (inventory & details & -> & Hd & Hlen)]; [done|].
  case_bool_decide; [done|]. rewrite Hd.
  rewrite length_map. by rewrite bool_decide_eq_true_2.
Qed.

Lemma partial_feed_has_no_effect_witness :
  let short := {| getInventory := Some [mkInv 1 5; mkInv 2 0];
                  getProductDetails := fun _ =>
                    Some [mkDetail 1 (Some 100) (Some [mkField "usr_column_514" "A"])] |} in
  let empty := {| getInventory := Some []; getProductDetails := fun _ => Some [] |} in
  let prior : gmap string StateEntry := {[ "A" := mkEntry 10 true (Some 100) 0 false ]} in
  (runWithOptions defaultBatchConfig true plainRun prior short (fun _ => true) 1).2 = [] /\
  (runWithOptions defaultBatchConfig true plainRun prior empty (fun _ => true) 1).2 = [].
Proof.
  split.
  - apply (partial_feed_has_no_effect defaultBatchConfig true plainRun
             {[ "A" := mkEntry 10 true (Some 100) 0 false ]}
             {| getInventory := Some [mkInv 1 5; mkInv 2 0];
                getProductDetails := fun _ =>
                  Some [mkDetail 1 (Some 100) (Some [mkField "usr_column_514" "A"])] |}
             (fun _ => true) 1).
    right. eexists _, _. split; [reflexivity|]. split; [reflexivity|]. simpl. lia.
  - apply (partial_feed_has_no_effect defaultBatchConfig true plainRun
             {[ "A" := mkEntry 10 true (Some 100) 0 false ]}
             {| getInventory := Some []; getProductDetails := fun _ => Some [] |}
             (fun _ => true) 1).
    left. reflexivity.
Defined.

End Guards.

(** ** SyncEngine: the diff stage *)
Section Diff.
Import SyncEngine.

Variable forceFull : bool.
Variable prev : gmap string StateEntry.
Variable now : Z.

Lemma detectStep_updates (c : changes) (e : string * SkuData) :
  let c' := detectStep forceFull false prev now c e in
  itemUpdates c' = itemUpdates c ++ (if itemDue forceFull prev e then [itemOf e] else []) /\
  inventoryUpdates c' =
    inventoryUpdates c ++ (if inventoryDue forceFull prev e then [inventoryOf e] else []).
Proof.
  unfold detectStep, itemDue, inventoryDue, itemOf, inventoryOf.
  destruct forceFull; cbn; [done|].
  destruct (prev !! e.1) as [p|]; cbn; [|done].
  split; [destruct (_ || _) | case_bool_decide]; by rewrite ?app_nil_r.
Qed.






End Diff.


(** ** SyncEngine: the push phases *)
Section Push.
Import SyncEngine.

Lemma batchesFrom_concat {A} (fuel size : nat) (arr : list A) :
  (0 < size)%nat -> (length arr <= fuel)%nat ->
  concat (batchesFrom fuel size arr) = arr.
Proof.
  intros Hsize. revert arr. induction fuel as [|fuel IH]; intros arr Hlen; cbn.
  { destruct arr; [done | cbn in Hlen; lia]. }
  destruct arr as [|x arr]; [done|].
  cbn [concat]. rewrite IH.
  - apply take_drop.
  - rewrite length_drop. cbn in *. lia.
Qed.

(** The loop over [i] visits the whole array: the fuel given by [batches]
    is enough. *)
Lemma batches_concat {A} (size : positive) (arr : list A) :
  concat (batches size arr) = arr.
Proof. apply batchesFrom_concat; lia. Qed.

Lemma applyLimit_length {A} (n : Z) (arr : list A) :
  0 < n -> (length (applyLimit (Some n) arr) <= Z.to_nat n)%nat.
Proof.
  intros Hn. unfold applyLimit.
  rewrite !bool_decide_eq_true_2 by lia. cbn.
  case_bool_decide; [rewrite length_take|]; lia.
Qed.

Lemma applyLimit_falsy {A} (limit : option Z) (arr : list A) :
  truthy limit = false -> applyLimit limit arr = arr.
Proof.
  destruct limit as [n|]; [|done]. cbn. intros H.
  apply bool_decide_eq_false in H. by rewrite (bool_decide_eq_false_2 (n ≠ 0)).
Qed.

Lemma concat_take_length {A} (k : nat) (l : list (list A)) :
  (length (concat (take k l)) <= length (concat l))%nat.
Proof.
  rewrite <- (take_drop k l) at 2. rewrite concat_app, length_app. lia.
Qed.

Lemma concat_take_snoc_length {A} (k : nat) (l : list (list A)) (x : list A) :
  l !! k = Some x -> (length (concat (take k l) ++ x) <= length (concat l))%nat.
Proof.
  intros Hk. etransitivity; [|apply (concat_take_length (S k))].
  rewrite (take_S_r _ _ _ Hk), concat_app. cbn. by rewrite app_nil_r.
Qed.

Context {A : Type}.
Variable mk : list A -> bool -> event.
Variable skuOf : A -> string.
Variable options : SyncOptions.
Variable newState : gmap string StateEntry.
Variable wolt : nat -> bool.

(** Loop rule for a push phase.  [Q done p] relates the batches
    acknowledged so far to the state of the loop; it is kept by every
    acknowledged batch.  When the phase ends normally [Q] holds of all the
    batches; when a call throws, [Q] holds of the batches before it. *)
Lemma pushPhase_rule (Q : list (list A) -> progress -> Prop) :
  (forall done p batch, Q done p -> Q (done ++ [batch]) (acked mk skuOf options newState batch p)) ->
  forall bs done p,
    Q done p ->
    let r := pushPhase mk skuOf options newState wolt bs p in
    (r.2 = true -> Q (done ++ bs) r.1) /\
    (r.2 = false ->
       exists k batch p',
         bs !! k = Some batch /\ Q (done ++ take k bs) p' /\
         r.1 = called (mk batch false) p').
Proof.
  intros Hstep bs. induction bs as [|batch rest IH]; intros done p HQ; cbn.
  { split; [by rewrite app_nil_r | done]. }
  destruct (wolt (calls p)).
  - destruct (IH (done ++ [batch]) (acked mk skuOf options newState batch p) (Hstep _ _ _ HQ)) as [Hok Hfail].
    split.
    + intros Hr. specialize (Hok Hr). by rewrite <- app_assoc in Hok.
    + intros Hr. destruct (Hfail Hr) as (k & b & p' & Hk & HQ' & Heq).
      exists (S k), b, p'. split; [done|]. split; [|done].
      by rewrite <- app_assoc in HQ'.
  - split; [done|]. intros _. exists 0%nat, batch, p.
    split; [done|]. split; [|done]. cbn. by rewrite app_nil_r.
Qed.

End Push.

(** ** SyncEngine: limited runs *)
Section Limited.
Import FinaAdapter SyncEngine.

Lemma sentItems_app (t1 t2 : list event) :
  sentItems (t1 ++ t2) = sentItems t1 ++ sentItems t2.
Proof. apply flat_map_app. Qed.
Lemma sentInventory_app (t1 t2 : list event) :
  sentInventory (t1 ++ t2) = sentInventory t1 ++ sentInventory t2.
Proof. apply flat_map_app. Qed.
Lemma saves_app (t1 t2 : list event) : saves (t1 ++ t2) = saves t1 ++ saves t2.
Proof. apply flat_map_app. Qed.
Lemma confirmedSkus_app (t1 t2 : list event) :
  confirmedSkus (t1 ++ t2) = confirmedSkus t1 ++ confirmedSkus t2.
Proof. apply flat_map_app. Qed.

Lemma persisted_app (st : gmap string StateEntry) (t1 t2 : list event) :
  persisted st (t1 ++ t2) = persisted (persisted st t1) t2.
Proof. apply foldl_app. Qed.

Lemma persisted_last_save (st : gmap string StateEntry) (tr : list event) :
  persisted st tr = default st (last (saves tr)).
Proof.
  induction tr as [|e tr IH] using rev_ind; [done|].
  rewrite persisted_app, saves_app, IH. destruct e; cbn; rewrite ?app_nil_r; try done.
  by rewrite last_snoc.
Qed.

Lemma updateSyncedState_limited (options : SyncOptions) (ns : gmap string StateEntry)
    (skus : list string) (p : progress) :
  truthy (limit options) = true -> updateSyncedState options ns skus p = p.
Proof. intros H. unfold updateSyncedState. rewrite H. by rewrite orb_true_r. Qed.

Variable cfg : BatchConfig.
Variable options : SyncOptions.
Variable n : Z.
Hypothesis limited : limit options = Some n.
Hypothesis positive : 0 < n.

Lemma limit_truthy : truthy (limit options) = true.
Proof. rewrite limited. cbn. apply bool_decide_eq_true_2. lia. Qed.

Lemma execute_limited (first : bool) (loaded : gmap string StateEntry) (c : changes)
    (wolt : nat -> bool) :
  let tr := (execute cfg options first loaded c wolt).2 in
  (length (sentItems tr) <= Z.to_nat n)%nat /\
  (length (sentInventory tr) <= Z.to_nat n)%nat /\
  saves tr = [].
Proof.
  unfold execute. rewrite limit_truthy, limited. cbn zeta.
  set (size := resolveBatchConfig cfg first).
  set (items := applyLimit (Some n) (itemUpdates c)).
  set (invs := applyLimit (Some n) (inventoryUpdates c)).
  assert (length items <= Z.to_nat n)%nat as Hitems by by apply applyLimit_length.
  assert (length invs <= Z.to_nat n)%nat as Hinvs by by apply applyLimit_length.
  clearbody size items invs.
  destruct (dryRun options); cbn [fst snd negb trace]; [cbn; repeat split; lia|].
  (* phase 1 *)
  destruct (pushPhase_rule UpdateItems it_sku options (newState c) wolt
    (fun done p => saves (trace p) = [] /\ sentItems (trace p) = concat done /\
                   sentInventory (trace p) = [])) with
    (bs := batches size items) (done := @nil (list WoltItemUpdate))
    (p := mkProgress [] loaded 0) as [Hok1 Hfail1].
  { intros done p batch (Hs & Hi & Hv). unfold acked.
    rewrite updateSyncedState_limited by apply limit_truthy.
    unfold called. cbn [trace].
    rewrite saves_app, sentItems_app, sentInventory_app, Hs, Hi, Hv, concat_app. cbn.
    by rewrite !app_nil_r. }
  { done. }
  destruct (pushPhase UpdateItems it_sku options (newState c) wolt
              (batches size items) (mkProgress [] loaded 0)) as [p1 [|]];
    cbn [fst snd negb] in *.
  2:{ destruct (Hfail1 eq_refl) as (k & batch & p' & Hk & (Hs & Hi & Hv) & ->).
      unfold called. cbn [trace snd fst].
      rewrite saves_app, sentItems_app, sentInventory_app, Hs, Hi, Hv. cbn.
      rewrite !app_nil_r. repeat split; [|lia].
      etransitivity; [by apply concat_take_snoc_length|]. by rewrite batches_concat. }
  destruct (Hok1 eq_refl) as (Hs1 & Hi1 & Hv1).
  cbn [app] in Hi1. rewrite batches_concat in Hi1.
  (* phase 2 *)
  destruct (pushPhase_rule UpdateInventory iu_sku options (newState c) wolt
    (fun done p => saves (trace p) = [] /\ sentItems (trace p) = items /\
                   sentInventory (trace p) = concat done)) with
    (bs := batches size invs) (done := @nil (list WoltInventoryItem))
    (p := p1) as [Hok2 Hfail2].
  { intros done p batch (Hs & Hi & Hv). unfold acked.
    rewrite updateSyncedState_limited by apply limit_truthy.
    unfold called. cbn [trace].
    rewrite saves_app, sentItems_app, sentInventory_app, Hs, Hi, Hv, concat_app. cbn.
    by rewrite !app_nil_r. }
  { done. }
  destruct (pushPhase UpdateInventory iu_sku options (newState c) wolt
              (batches size invs) p1) as [p2 [|]];
    cbn [fst snd negb] in *.
  2:{ destruct (Hfail2 eq_refl) as (k & batch & p' & Hk & (Hs & Hi & Hv) & ->).
      unfold called. cbn [trace snd fst].
      rewrite saves_app, sentItems_app, sentInventory_app, Hs, Hi, Hv. cbn.
      rewrite !app_nil_r. repeat split; [done|].
      etransitivity; [by apply concat_take_snoc_length|]. by rewrite batches_concat. }
  destruct (Hok2 eq_refl) as (Hs2 & Hi2 & Hv2).
  cbn [app] in Hv2. rewrite batches_concat in Hv2.
  cbn [andb]. rewrite Hs2, Hi2, Hv2. done.
Qed.

(** C8 (amended). In a non-bootstrap run invoked with a positive limit, at
    most [limit] item updates and at most [limit] inventory updates are
    sent, and the run saves nothing: neither the final state map nor any
    per-batch progress; the persisted state is what it was. *)
Theorem limited_run_persists_nothing (storeEnabled : bool)
    (loaded : gmap string StateEntry) (fina : responses) (wolt : nat -> bool) (now : Z) :
  bootstrapState options = false ->
  let tr := (runWithOptions cfg storeEnabled options loaded fina wolt now).2 in
  (length (sentItems tr) <= Z.to_nat n)%nat /\
  (length (sentInventory tr) <= Z.to_nat n)%nat /\
  saves tr = [] /\
  persisted loaded tr = loaded.
Proof.
  intros Hboot. cbn zeta.
  assert (forall tr, (length (sentItems tr) <= Z.to_nat n)%nat /\
                     (length (sentInventory tr) <= Z.to_nat n)%nat /\ saves tr = [] ->
                     (length (sentItems tr) <= Z.to_nat n)%nat /\
                     (length (sentInventory tr) <= Z.to_nat n)%nat /\ saves tr = [] /\
                     persisted loaded tr = loaded) as Hadd.
  { intros tr (? & ? & Hs). repeat split; try done.
    by rewrite persisted_last_save, Hs. }
  apply Hadd. unfold runWithOptions. rewrite Hboot.
  destruct storeEnabled; cbn; [|repeat split; lia].
  destruct (getInventory fina) as [inventory|]; cbn; [|repeat split; lia].
  case_bool_decide; cbn; [repeat split; lia|].
  destruct (getProductDetails fina _) as [details|]; cbn; [|repeat split; lia].
  case_bool_decide; cbn; [repeat split; lia|].
  apply execute_limited.
Qed.

End Limited.

(** ** SyncEngine: what a run may add to the persisted state *)
Section Confirmed.
Import FinaAdapter SyncEngine.

Variable loaded : gmap string StateEntry.

Lemma accounted_mono (st : gmap string StateEntry) (tr more : list event) :
  accounted loaded st tr -> accounted loaded st (tr ++ more).
Proof.
  intros H sku Hs. destruct (H sku Hs) as [|Hin]; [by left|].
  right. rewrite confirmedSkus_app. apply elem_of_app. by left.
Qed.

Lemma savesAccounted_event (tr : list event) (e : event) :
  saves [e] = [] -> savesAccounted loaded tr -> savesAccounted loaded (tr ++ [e]).
Proof.
  intros He H s Hs. rewrite saves_app, He, app_nil_r in Hs.
  apply accounted_mono. by apply H.
Qed.

Lemma savesAccounted_save (tr : list event) (st : gmap string StateEntry) :
  savesAccounted loaded tr -> accounted loaded st tr -> savesAccounted loaded (tr ++ [SaveState st]).
Proof.
  intros H Hst s Hs. rewrite saves_app in Hs. apply elem_of_app in Hs as [Hs|Hs].
  - apply accounted_mono. by apply H.
  - cbn in Hs. apply list_elem_of_singleton in Hs as ->. by apply accounted_mono.
Qed.

Lemma persisted_accounted (tr : list event) :
  savesAccounted loaded tr -> accounted loaded (persisted loaded tr) tr.
Proof.
  intros H. rewrite persisted_last_save.
  destruct (last (saves tr)) as [s|] eqn:Hlast; cbn.
  - apply H. apply last_Some in Hlast as [l' ->]. apply elem_of_app. right.
    by apply list_elem_of_singleton.
  - intros sku Hs. by left.
Qed.

Lemma synced_keys (ns : gmap string StateEntry) (skus : list string)
    (m : gmap string StateEntry) (sku : string) :
  is_Some (foldl (fun m sku => match ns !! sku with
                               | Some current => <[sku := current]> m
                               | None => m
                               end) m skus !! sku) ->
  is_Some (m !! sku) \/ sku ∈ skus.
Proof.
  revert m. induction skus as [|k skus IH]; intros m H; [by left|].
  cbn in H. apply IH in H as [H|H]; [|right; by apply elem_of_cons; right].
  destruct (ns !! k); [|by left].
  destruct (decide (k = sku)) as [->|Hne].
  - right. apply elem_of_cons. by left.
  - rewrite lookup_insert_ne in H by done. by left.
Qed.

Context {A : Type}.
Variable mk : list A -> bool -> event.
Variable skuOf : A -> string.
Variable options : SyncOptions.
Variable ns : gmap string StateEntry.
Variable wolt : nat -> bool.
Hypothesis mk_saves : forall batch ok, saves [mk batch ok] = [].
Hypothesis mk_acked : forall batch, confirmedSkus [mk batch true] = map skuOf batch.

Lemma phaseInv_acked (before : list string) (done : list (list A)) (p : progress)
    (batch : list A) :
  phaseInv loaded skuOf before done p -> phaseInv loaded skuOf before (done ++ [batch]) (acked mk skuOf options ns batch p).
Proof.
  intros (Hsaves & Hmem & Hconf).
  assert (phaseInv loaded skuOf before (done ++ [batch]) (called (mk batch true) p)) as H1.
  { unfold called, phaseInv. cbn [trace previousState]. split; [|split].
    - by apply savesAccounted_event.
    - by apply accounted_mono.
    - intros sku Hin. rewrite confirmedSkus_app, mk_acked.
      rewrite concat_app, map_app, app_assoc in Hin. cbn in Hin. rewrite app_nil_r in Hin.
      apply elem_of_app in Hin as [Hin|Hin]; apply elem_of_app; [left; by apply Hconf | by right]. }
  unfold acked, updateSyncedState.
  destruct (dryRun options || truthy (limit options)); [done|].
  destruct H1 as (Hsaves1 & Hmem1 & Hconf1).
  set (prev' := foldl _ _ _).
  assert (accounted loaded prev' (trace (called (mk batch true) p))) as Hprev.
  { intros sku Hs. apply synced_keys in Hs as [Hs|Hs]; [by apply Hmem1|].
    right. apply Hconf1. apply elem_of_app. right.
    rewrite concat_app, map_app. cbn. rewrite app_nil_r. apply elem_of_app. by right. }
  unfold phaseInv. cbn [trace previousState]. split; [|split].
  - by apply savesAccounted_save.
  - by apply accounted_mono.
  - intros sku Hin. rewrite confirmedSkus_app. apply elem_of_app. left. by apply Hconf1.
Qed.

Lemma phase_accounted (before : list string) (bs : list (list A)) (p : progress) :
  phaseInv loaded skuOf before [] p ->
  let r := pushPhase mk skuOf options ns wolt bs p in
  savesAccounted loaded (trace r.1) /\
  (r.2 = true -> phaseInv loaded skuOf before bs r.1).
Proof.
  intros Hinv.
  destruct (pushPhase_rule mk skuOf options ns wolt (phaseInv loaded skuOf before)
              ltac:(intros; by apply phaseInv_acked) bs [] p Hinv) as [Hok Hfail].
  cbn zeta. destruct (pushPhase mk skuOf options ns wolt bs p) as [r [|]]; cbn [fst snd] in *.
  - destruct (Hok eq_refl) as (? & ? & ?). split; [done|]. by intros _.
  - split; [|done].
    destruct (Hfail eq_refl) as (k & batch & p' & _ & (Hsaves & _ & _) & ->).
    unfold called. cbn [trace]. by apply savesAccounted_event.
Qed.

End Confirmed.

Section ConfirmedRun.
Import FinaAdapter SyncEngine.

Variable loaded : gmap string StateEntry.
Variable now : Z.

Lemma detectStep_newState (forceFull bootstrap : bool) (c : changes) (e : string * SkuData) :
  newState (detectStep forceFull bootstrap loaded now c e) =
    <[e.1 := entryOf e.2 now]> (newState c).
Proof.
  unfold detectStep. destruct (forceFull && negb bootstrap); [done|].
  destruct (loaded !! e.1); [done|]. by destruct (negb bootstrap).
Qed.

Lemma detect_loop_covered (forceFull : bool) (woltData : list (string * SkuData))
    (c : changes) :
  keysCovered loaded c -> keysCovered loaded (foldl (detectStep forceFull false loaded now) c woltData).
Proof.
  revert c. induction woltData as [|e wd IH]; intros c Hc; [done|].
  cbn [foldl]. apply IH. intros sku Hs.
  rewrite detectStep_newState in Hs.
  destruct (detectStep_updates forceFull loaded now c e) as [-> _].
  rewrite map_app, elem_of_app.
  destruct (decide (e.1 = sku)) as [<-|Hne].
  - destruct (loaded !! e.1) as [p|] eqn:Hp; [left; by eexists|].
    right. right. unfold itemDue. rewrite Hp, orb_true_r. cbn. by apply elem_of_cons; left.
  - rewrite lookup_insert_ne in Hs by done.
    destruct (Hc sku Hs) as [|]; [by left | right; by left].
Qed.

Lemma missing_loop_covered (woltData : list (string * SkuData))
    (l : list (string * StateEntry)) (c : changes) :
  (forall e, e ∈ l -> loaded !! e.1 = Some e.2) ->
  keysCovered loaded c -> keysCovered loaded (foldl (missingStep false woltData now) c l).
Proof.
  revert c. induction l as [|e l IH]; intros c Hl Hc; [done|].
  cbn [foldl]. apply IH.
  { intros e' He'. apply Hl. by apply elem_of_cons; right. }
  intros sku Hs. unfold missingStep in *.
  destruct (negb (has woltData e.1)); [|by apply Hc]. cbn in *.
  destruct (decide (e.1 = sku)) as [<-|Hne].
  - left. rewrite (Hl e) by (by apply elem_of_cons; left). by eexists.
  - rewrite lookup_insert_ne in Hs by done.
    rewrite map_app, elem_of_app. destruct (Hc sku Hs) as [|]; [by left | right; by left].
Qed.

Lemma detectChanges_covered (forceFull : bool) (woltData : list (string * SkuData)) :
  keysCovered loaded (detectChanges forceFull false loaded now woltData).
Proof.
  unfold detectChanges. apply missing_loop_covered.
  - intros [k v] He. by apply elem_of_map_to_list in He.
  - apply detect_loop_covered. intros sku Hs. cbn in Hs.
    rewrite lookup_empty in Hs. by destruct Hs.
Qed.

Lemma execute_accounted (cfg : BatchConfig) (options : SyncOptions) (first : bool)
    (c : changes) (wolt : nat -> bool) :
  keysCovered loaded c ->
  savesAccounted loaded (execute cfg options first loaded c wolt).2.
Proof.
  intros Hcov. unfold execute. cbn zeta.
  set (size := resolveBatchConfig cfg first).
  destruct (dryRun options) eqn:Hdry; cbn [fst snd negb andb trace].
  { intros s Hs. by apply elem_of_nil in Hs. }
  (* phase 1 *)
  destruct (phase_accounted loaded UpdateItems it_sku options (newState c) wolt
              ltac:(done) ltac:(intros; cbn; by rewrite app_nil_r)
              [] (batches size (applyLimit (limit options) (itemUpdates c)))
              (mkProgress [] loaded 0)) as [Hs1 Hok1].
  { split; [|split].
    - intros s Hs. by apply elem_of_nil in Hs.
    - intros sku Hs. by left.
    - intros sku Hs. by apply elem_of_nil in Hs. }
  destruct (pushPhase UpdateItems _ _ _ _ _ _) as [p1 [|]]; cbn [fst snd negb] in *; [|done].
  destruct (Hok1 eq_refl) as (Hsaves1 & Hmem1 & Hconf1).
  rewrite batches_concat in Hconf1. cbn [app] in Hconf1.
  (* phase 2 *)
  destruct (phase_accounted loaded UpdateInventory iu_sku options (newState c) wolt
              ltac:(done) ltac:(intros; cbn; by rewrite app_nil_r)
              (map it_sku (applyLimit (limit options) (itemUpdates c)))
              (batches size (applyLimit (limit options) (inventoryUpdates c)))
              p1) as [Hs2 Hok2].
  { split; [done|]. split; [done|]. intros sku Hs. cbn in Hs. rewrite app_nil_r in Hs.
    by apply Hconf1. }
  destruct (pushPhase UpdateInventory _ _ _ _ _ _) as [p2 [|]]; cbn [fst snd negb] in *; [|done].
  destruct (Hok2 eq_refl) as (Hsaves2 & Hmem2 & Hconf2).
  destruct (truthy (limit options)) eqn:Hlim; cbn [negb]; [done|].
  apply savesAccounted_save; [done|].
  intros sku Hs. destruct (Hcov sku Hs) as [|Hin]; [by left|].
  right. apply Hconf2. apply elem_of_app. left. by rewrite applyLimit_falsy.
Qed.

(** C6 (amended). After a run that is not a bootstrap, every SKU with an
    entry in the persisted state either had an entry in the state the run
    loaded or belongs to a batch the marketplace acknowledged during the
    run. *)
Theorem run_adds_only_confirmed_skus (cfg : BatchConfig) (storeEnabled : bool)
    (options : SyncOptions) (fina : responses) (wolt : nat -> bool) (sku : string) :
  bootstrapState options = false ->
  let tr := (runWithOptions cfg storeEnabled options loaded fina wolt now).2 in
  is_Some (persisted loaded tr !! sku) ->
  is_Some (loaded !! sku) \/ sku ∈ confirmedSkus tr.
Proof.
  intros Hboot tr. apply persisted_accounted. unfold tr, runWithOptions. rewrite Hboot.
  assert (savesAccounted loaded []) as Hnil.
  { intros s Hs. by apply elem_of_nil in Hs. }
  destruct storeEnabled; cbn [negb snd]; [|done].
  destruct (getInventory fina) as [inventory|]; [|done].
  case_bool_decide; [done|].
  destruct (getProductDetails fina _) as [details|]; [|done].
  case_bool_decide; [done|].
  apply execute_accounted, detectChanges_covered.
Qed.

End ConfirmedRun.

(** ** SyncEngine: scenarios for limited and bootstrap runs *)
Section Scenarios.
Import FinaAdapter SyncEngine.

(** C8 (as stated) fails.  With [limit = 1] the run pushes one batch to
    each endpoint, both acknowledged, and saves nothing after either; and a
    bootstrap run given a limit does save its final state map. *)
Lemma limited_run_counterexample :
  (runWithOptions defaultBatchConfig true limitedRun priorA twoProducts (fun _ => true) 7).2 =
    [UpdateItems [mkItemUpd "B" (Some true) (Some 200)] true;
     UpdateInventory [mkInvUpd "A" 5] true] /\
  ~ progressPersisted
      (runWithOptions defaultBatchConfig true limitedRun priorA twoProducts (fun _ => true) 7).2 /\
  saves (runWithOptions defaultBatchConfig true limitedBootstrap priorA twoProducts
           (fun _ => true) 7).2 =
    [ {[ "A" := mkEntry 5 true (Some 100) 7 false;
         "B" := mkEntry 3 true (Some 200) 7 false ]} ].
Proof.
  assert ((runWithOptions defaultBatchConfig true limitedRun priorA twoProducts
             (fun _ => true) 7).2 =
          [UpdateItems [mkItemUpd "B" (Some true) (Some 200)] true;
           UpdateInventory [mkInvUpd "A" 5] true]) as Htr by (vm_compute; reflexivity).
  split; [exact Htr|]. split.
  - rewrite Htr. intros H.
    destruct (H 1%nat (UpdateInventory [mkInvUpd "A" 5] true) eq_refl) as [st Hst].
    + right. by eexists.
    + discriminate Hst.
  - vm_compute. reflexivity.
Qed.

Lemma limited_run_persists_nothing_witness :
  limit limitedRun = Some 1 /\ 0 < 1 /\ bootstrapState limitedRun = false /\
  let tr := (runWithOptions defaultBatchConfig true limitedRun priorA twoProducts
               (fun _ => true) 7).2 in
  (length (sentItems tr) <= Z.to_nat 1)%nat /\
  (length (sentInventory tr) <= Z.to_nat 1)%nat /\
  saves tr = [] /\
  persisted priorA tr = priorA.
Proof.
  split; [reflexivity|]. split; [lia|]. split; [reflexivity|].
  apply (limited_run_persists_nothing defaultBatchConfig limitedRun 1 eq_refl ltac:(lia)
           true priorA twoProducts (fun _ => true) 7 eq_refl).
Defined.

(** C6 (as stated) fails.  A bootstrap run on a store without state saves
    an entry for each SKU of the view and calls no endpoint: no SKU of the
    persisted state has been confirmed by a push. *)
Lemma bootstrap_counterexample :
  let tr := (runWithOptions defaultBatchConfig true bootstrapRun ∅ twoProducts
               (fun _ => true) 7).2 in
  tr = [SaveState {[ "A" := mkEntry 5 true (Some 100) 7 false;
                     "B" := mkEntry 3 true (Some 200) 7 false ]}] /\
  confirmedSkus tr = [] /\
  ~ everyEntryConfirmed (persisted ∅ tr) tr.
Proof.
  cbn zeta.
  assert ((runWithOptions defaultBatchConfig true bootstrapRun ∅ twoProducts
             (fun _ => true) 7).2 =
          [SaveState {[ "A" := mkEntry 5 true (Some 100) 7 false;
                        "B" := mkEntry 3 true (Some 200) 7 false ]}]) as Htr
    by (vm_compute; reflexivity).
  rewrite Htr. split; [done|]. split; [done|].
  intros H. specialize (H "A"). cbn in H.
  assert (is_Some (({[ "A" := mkEntry 5 true (Some 100) 7 false;
                       "B" := mkEntry 3 true (Some 200) 7 false ]}
                    : gmap string StateEntry) !! "A")) as HA by (by eexists).
  apply H in HA. by apply elem_of_nil in HA.
Qed.

Lemma run_adds_only_confirmed_skus_witness :
  bootstrapState plainRun = false /\
  let tr := (runWithOptions defaultBatchConfig true plainRun priorA twoProducts
               (fun _ => true) 7).2 in
  is_Some (persisted priorA tr !! "B") /\
  (is_Some (priorA !! "B") \/ "B" ∈ confirmedSkus tr).
Proof.
  split; [reflexivity|]. cbn zeta.
  assert (is_Some (persisted priorA
            (runWithOptions defaultBatchConfig true plainRun priorA twoProducts
               (fun _ => true) 7).2 !! "B")) as HB.
  { vm_compute. eexists. reflexivity. }
  split; [exact HB|].
  exact (run_adds_only_confirmed_skus priorA 7 defaultBatchConfig true plainRun twoProducts
           (fun _ => true) "B" eq_refl HB).
Defined.

End Scenarios.

(** ** HybridSyncOrchestrator: the priority phase *)
Section Priority.
Import PriorityScorer AdaptiveBatcher HybridSync.










Section Loop.
Variable env : Env.
Variable venueId : string.
Variable wolt : nat -> answer.
Variable clock : nat -> Z.
Context {A : Type}.
Variable send : list A -> answer -> event.
Variable readsRateLimitHit : bool.
Variable updates : list A.






End Loop.









(** The hypothesis on the batch size is needed.  With an initial size of 1, a
    threshold of one success and a rate of 2, the first batch is the first
    update, the size becomes 2, and the loop goes on from index 2: the
    second of three item updates is never sent. *)
Lemma adaptiveSync_skips_when_batch_grows :
  let env := mkEnv (Some 1) None None (Some 1) (Some (2, 1)) None in
  let a := mkItem "A" true (Some (Js.Finite 1)) in
  let b := mkItem "B" true (Some (Js.Finite 2)) in
  let c := mkItem "C" true (Some (Js.Finite 3)) in
  let pushed := adaptiveSync env "venue" accepting (fun _ => 0) 10 [a; b; c]
                  [mkInvUpd "A" 1; mkInvUpd "B" 1; mkInvUpd "C" 1] (mkRun [] ∅) in
  pushed.1 = Completed /\
  pushedItems (trace pushed.2) = [a; c] /\
  pushedInventory (trace pushed.2) = [mkInvUpd "A" 1; mkInvUpd "B" 1; mkInvUpd "C" 1].
Proof. cbn zeta. split; [|split]; vm_compute; reflexivity. Qed.




End Priority.
